(** * MyLD2410: the driver's header, embedded and verified

    A shallow embedding of [src/MyLD2410.h]: the [Response] enumeration,
    the [ValuesArray] and [SensorData] structures with the two inline member
    functions of [ValuesArray], and the private state of the [MyLD2410]
    class with its default member initialisers.  The member functions whose
    bodies live outside the header are modelled from the specification and
    marked as such. *)

From Stdlib Require Import ZArith Lia Strings.Byte Strings.String.
From stdpp Require Import base option list vector gmap.
From Equations Require Import Equations.

Local Open Scope nat_scope.

(** ** Machine types *)

(** Arduino's [byte] is [uint8_t].  Stored bytes are [Byte.byte]; a byte used
    as a number is read through [Byte.to_nat], which is at most 255. *)
Abbreviation byte := Byte.byte.

(** [i++] on a [byte] loop counter: the increment wraps at 256. *)
Definition byte_incr (i : nat) : nat := (i + 1) mod 256.

(** [unsigned long] is 32 bits wide on the Arduino targets; its arithmetic
    wraps modulo [2^32]. *)
Definition ulong_modulus : Z := 2 ^ 32.
Definition ulong_wrap (z : Z) : Z := (z mod ulong_modulus)%Z.

(** A C array [byte a[n]] is a vector of length [n].  Indexing it at
    [i >= n] is undefined behaviour, which the embedding reports as [None]. *)
Definition load {n} (a : vec byte n) (i : nat) : option byte :=
  vec_to_list a !! i.

Definition store {n} (a : vec byte n) (i : nat) (x : byte) : option (vec byte n) :=
  match decide (i < n) with
  | left Hi => Some (vinsert (nat_to_fin Hi) x a)
  | right _ => None
  end.

(** ** [enum Response] (lines 10-15) *)

Inductive Response : Set := FAIL | ACK | DATA.

(** The enumerators' integer values: [FAIL = 0] is explicit, [ACK] and
    [DATA] follow it. *)
Definition Response_value (r : Response) : Z :=
  match r with
  | FAIL => 0
  | ACK => 1
  | DATA => 2
  end%Z.

(** Conversion of an enumeration value to [bool]: non-zero is [true]. *)
Definition Response_to_bool (r : Response) : bool :=
  negb (Response_value r =? 0)%Z.

(** ** [struct ValuesArray] (lines 16-35) *)

Record ValuesArray : Type := mkValuesArray {
  values : vec byte 9;
  N : byte
}.

(** The count as a number. *)
Definition count (a : ValuesArray) : nat := Byte.to_nat (N a).

(** The data-model invariant: the count does not exceed the capacity. *)
Definition within_capacity (a : ValuesArray) : Prop := count a <= 9.

(** The meaningful part of an array: its first [N] slots. *)
Definition contents (a : ValuesArray) : list byte :=
  take (count a) (vec_to_list (values a)).

(** The loop of [operator=] (lines 25-26), from counter value [i] on:
    [for (...; i < N; i++) values[i] = other.values[i];].
    [this] is the object assigned to; the loop bound is its own [N]. *)
Equations? assign_loop (this other : ValuesArray) (i : nat) : option ValuesArray
  by wf (count this - i) lt :=
assign_loop this other i with decide (i < count this) => {
  | right _ => Some this
  | left _ with load (values other) i => {
    | None => None
    | Some x with store (values this) i x => {
      | None => None
      | Some vs =>
          assign_loop {| values := vs; N := N this |} other (byte_incr i) } } }.
Proof.
  change (count {| values := vs; N := N this |}) with (count this).
  pose proof (Byte.to_nat_bounded (N this)) as Hb; fold (count this) in Hb.
  unfold byte_incr; rewrite Nat.mod_small; lia.
Qed.

(** The guarded block of [operator=] (lines 24-26) on two distinct objects. *)
Definition assign_body (this other : ValuesArray) : option ValuesArray :=
  assign_loop {| values := values this; N := N other |} other 0.

(** Objects live at addresses; a reference is an address. *)
Abbreviation addr := positive.

(** [ValuesArray &operator=(const ValuesArray &other)] (lines 20-29), called
    on the object at address [this].  The result is the new store together
    with the reference returned, [*this].  [None] is undefined behaviour: a
    dangling reference or an access outside [values]. *)
Definition operator_assign (h : gmap addr ValuesArray) (this other : addr)
  : option (gmap addr ValuesArray * addr) :=
  if decide (this ≠ other) then
    a ← h !! this;
    b ← h !! other;
    a' ← assign_body a b;
    Some (<[this := a']> h, this)
  else Some (h, this).

(** The arrays of the program, by address. *)
Abbreviation heap := (gmap addr ValuesArray).

(** [forEach] (lines 30-34), a [const] member taking a pointer [func] to a
    function from [const byte &] to [void].

    The callback is an arbitrary function of the program.  It is handed a
    reference to the element, that is the address of the array and the
    index of the slot, and it acts on everything the program can reach: the
    arrays on the heap, the traversed one included, and the rest of the
    program's state, of type [W]. *)
Abbreviation callback W := (addr → nat → heap * W → heap * W).

Section forEach.
Context {W : Type}.
Variable func : callback W.

(** The loop of lines 32-33, from counter value [i] on.  Each turn reads
    [N] from the object anew, binds a reference to [values[i]], which has
    to be a slot of the array, and calls [func] on it. *)
Equations? forEach_loop (this : addr) (i : nat) (h : heap) (w : W)
  : option (heap * W) by wf (256 - i) lt :=
forEach_loop this i h w with h !! this => {
  | None => None
  | Some a with decide (i < count a) => {
    | right _ => Some (h, w)
    | left _ with load (values a) i => {
      | None => None
      | Some _ =>
          forEach_loop this (byte_incr i)
                       (func this i (h, w)).1 (func this i (h, w)).2 } } }.
Proof.
  pose proof (Byte.to_nat_bounded (N a)) as Hb; fold (count a) in Hb.
  unfold byte_incr; rewrite Nat.mod_small; lia.
Qed.

(** [forEach] called on the object at address [this], in program state [s].
    [None] is undefined behaviour: a dangling reference or a reference to
    an element outside [values]. *)
Definition forEach (this : addr) (s : heap * W) : option (heap * W) :=
  forEach_loop this 0 s.1 s.2.
End forEach.

(** A callback that reads the element it is handed and acts on the state
    outside the arrays only. *)
Definition by_value {W : Type} (g : byte → W → W) : callback W :=
  λ p i s,
    match s.1 !! p with
    | Some a =>
        match load (values a) i with
        | Some x => (s.1, g x s.2)
        | None => s
        end
    | None => s
    end.

(** A callback leaves the array [a] at address [p] alone when no call on an
    element of it changes it. *)
Definition leaves_alone {W : Type} (func : callback W) (p : addr)
    (a : ValuesArray) : Prop :=
  ∀ i h w, h !! p = Some a → (func p i (h, w)).1 !! p = Some a.

(** A callback that counts its calls and sets the count of the array it is
    called on to [n]. *)
Definition set_count (n : byte) : callback nat :=
  λ p i s,
    match s.1 !! p with
    | Some a => (<[p := {| values := values a; N := n |}]> s.1, S s.2)
    | None => (s.1, S s.2)
    end.

(** A callback that notes the element it is handed and sets the count of
    the array it is called on to 4. *)
Definition note_and_set_count_4 : callback (list byte) :=
  λ p i s,
    match s.1 !! p with
    | Some a =>
        (<[p := {| values := values a; N := x04 |}]> s.1,
         s.2 ++ match load (values a) i with Some x => [x] | None => [] end)
    | None => s
    end.

(** ** [struct SensorData] (lines 36-48) *)

Record SensorData : Type := mkSensorData {
  status : byte;
  timestamp : Z;
  mTargetDistance : Z;
  mTargetSignal : byte;
  sTargetDistance : Z;
  sTargetSignal : byte;
  distance : Z;
  mTargetSignals : ValuesArray;
  sTargetSignals : ValuesArray
}.

(** ** The private state of [class MyLD2410] (lines 50-71) *)

(** [LD2410_BUFFER_SIZE] (line 5). *)
Definition LD2410_BUFFER_SIZE : nat := 0x40.

Record MyLD2410 : Type := mkMyLD2410 {
  sData : SensorData;
  stationaryThresholds : ValuesArray;
  movingThresholds : ValuesArray;
  maxRange : byte;
  noOne_window : byte;
  version : Z;
  bufferSize : Z;
  MAC : vec byte 6;
  MACstr : string;
  firmware : string;
  fineRes : Z;
  isEnhanced : bool;
  isConfig : bool;
  timeout : Z;
  dataLifespan : Z;
  inBuf : vec byte LD2410_BUFFER_SIZE;
  inBufI : byte;
  headBuf : vec byte 4;
  headBufI : byte;
  sensor : addr;
  _debug : bool
}.

(** The default member initialisers of lines 54-71, applied to the storage
    [raw] of a new object.  The members declared without an initialiser
    ([sData], the two threshold arrays, [MAC], [inBuf], [headBuf]) keep
    whatever the storage held; [sensor] is bound by the constructor. *)
Definition default_members (raw : MyLD2410) : MyLD2410 :=
  {| sData := sData raw;
     stationaryThresholds := stationaryThresholds raw;
     movingThresholds := movingThresholds raw;
     maxRange := Byte.x00;
     noOne_window := Byte.x00;
     version := 0;
     bufferSize := 0;
     MAC := MAC raw;
     MACstr := "";
     firmware := "";
     fineRes := -1;
     isEnhanced := false;
     isConfig := false;
     timeout := 2000;
     dataLifespan := 500;
     inBuf := inBuf raw;
     inBufI := Byte.x00;
     headBuf := headBuf raw;
     headBufI := Byte.x00;
     sensor := sensor raw;
     _debug := false |}.

(** ** Staleness and the detection queries *)

(** Modelled from the spec: the body of [isDataValid] (declared on line 72,
    defined outside the header).  Section 4.4 gives it as
    [(now - SensorData.timestamp) < dataLifespan]; the operands are
    [unsigned long], so the difference wraps.  [now] is the clock reading
    at the time of the query. *)
Definition isDataValid (m : MyLD2410) (now : Z) : bool :=
  (ulong_wrap (now - timestamp (sData m)) <? dataLifespan m)%Z.

Section DetectionQueries.
(** The two bit flags of the status byte.  Which bits they are is a
    constant of the device's protocol that neither the header nor the
    specification fixes. *)
Variables movingFlag stationaryFlag : byte -> bool.

(** Modelled from the spec: the bodies of the detection queries declared
    on lines 130, 135 and 161.  Section 4.4: each consults [isDataValid]
    before returning a detected state, and reports not detected once the
    snapshot is stale, whatever the stored flags. *)
Definition movingTargetDetected (m : MyLD2410) (now : Z) : bool :=
  isDataValid m now && movingFlag (status (sData m)).

Definition stationaryTargetDetected (m : MyLD2410) (now : Z) : bool :=
  isDataValid m now && stationaryFlag (status (sData m)).

Definition presenceDetected (m : MyLD2410) (now : Z) : bool :=
  isDataValid m now &&
  (movingFlag (status (sData m)) || stationaryFlag (status (sData m))).
End DetectionQueries.

(** Modelled from the spec: the effect of a successful telemetry decode
    ([processData], declared on line 76, defined outside the header).
    Section 4.3: the stored [SensorData] is replaced as a whole by the
    decoded snapshot and its timestamp is set to the time of receipt. *)
Definition telemetry_decoded (m : MyLD2410) (snapshot : SensorData) (now : Z)
  : MyLD2410 :=
  {| sData :=
       {| status := status snapshot;
          timestamp := ulong_wrap now;
          mTargetDistance := mTargetDistance snapshot;
          mTargetSignal := mTargetSignal snapshot;
          sTargetDistance := sTargetDistance snapshot;
          sTargetSignal := sTargetSignal snapshot;
          distance := distance snapshot;
          mTargetSignals := mTargetSignals snapshot;
          sTargetSignals := sTargetSignals snapshot |};
     stationaryThresholds := stationaryThresholds m;
     movingThresholds := movingThresholds m;
     maxRange := maxRange m;
     noOne_window := noOne_window m;
     version := version m;
     bufferSize := bufferSize m;
     MAC := MAC m;
     MACstr := MACstr m;
     firmware := firmware m;
     fineRes := fineRes m;
     isEnhanced := isEnhanced m;
     isConfig := isConfig m;
     timeout := timeout m;
     dataLifespan := dataLifespan m;
     inBuf := inBuf m;
     inBufI := inBufI m;
     headBuf := headBuf m;
     headBufI := headBufI m;
     sensor := sensor m;
     _debug := _debug m |}.

(** Modelled from the spec: the body of [getMAC] (declared on line 191,
    defined outside the header).  The identity query hands out the stored
    MAC array itself. *)
Definition getMAC (m : MyLD2410) : vec byte 6 := MAC m.

(** ** The command/acknowledgement wait *)

(** The two frame dialects and a decoded frame (specification, section 3). *)
Inductive Dialect : Set := CommandDialect | TelemetryDialect.

Record Frame : Type := mkFrame {
  dialect : Dialect;
  payload : list byte
}.

(** The command code a command-dialect payload starts with: two bytes,
    little-endian (section 4.2). *)
Definition embedded_code (f : Frame) : option Z :=
  match payload f with
  | lo :: hi :: _ => Some (Z.of_nat (Byte.to_nat lo) + 256 * Z.of_nat (Byte.to_nat hi))%Z
  | _ => None
  end.

(** What one turn of the wait loop observes: the clock, and the frame the
    framer emitted from the bytes then available, if any. *)
Record Poll : Type := mkPoll {
  clock : Z;
  emitted : option Frame
}.

(** The outcome of a send (section 4.2). *)
Inductive SendOutcome : Type :=
  | Acknowledged (parameters : list byte)
  | Timeout
  | Rejected.

Section Correlator.
(** The bit an acknowledgement sets in the code of the request it answers:
    a constant of the device's protocol. *)
Variable ack_bit : Z.

Definition ack_code (code : Z) : Z := Z.lor code ack_bit.

Definition acknowledges (code : Z) (f : Frame) : bool :=
  match dialect f, embedded_code f with
  | CommandDialect, Some c => (c =? ack_code code)%Z
  | _, _ => false
  end.

(** The time waited at a poll, in [unsigned long] arithmetic. *)
Definition elapsed (start : Z) (p : Poll) : Z := ulong_wrap (clock p - start).

(** Modelled from the spec: the wait loop of [sendCommand] (declared on
    line 74, defined outside the header).  Section 4.2, cases (a) to (d):
    the loop ends with the payload when a command-dialect frame carries the
    acknowledgement code of the request, goes on after an unrelated
    command frame or a telemetry frame, and ends with [Timeout] when the
    elapsed wait exceeds the timeout.  [None]: the observations end while
    the loop is still waiting. *)
Fixpoint await_ack (limit start code : Z) (polls : list Poll)
  : option SendOutcome :=
  match polls with
  | [] => None
  | p :: later =>
      if (limit <? elapsed start p)%Z then Some Timeout
      else
        match emitted p with
        | Some f =>
            if acknowledges code f then Some (Acknowledged (drop 2 (payload f)))
            else await_ack limit start code later
        | None => await_ack limit start code later
        end
  end.

(** Modelled from the spec: [sendCommand] as the request methods see it
    (section 7: a timeout surfaces as [false]).  The wait is bounded by the
    [timeout] member. *)
Definition sendCommand (m : MyLD2410) (start code : Z) (polls : list Poll)
  : option bool :=
  match await_ack (timeout m) start code polls with
  | Some (Acknowledged _) => Some true
  | Some _ => Some false
  | None => None
  end.

(** No observed frame acknowledges the request. *)
Definition ack_never_arrives (code : Z) (polls : list Poll) : Prop :=
  Forall (λ p, ∀ f, emitted p = Some f → acknowledges code f = false) polls.
End Correlator.

(** * Objects for the examples *)

Definition full_array : ValuesArray :=
  {| values := [# x11; x12; x13; x14; x15; x16; x17; x18; x19]; N := x09 |}.

Definition short_array : ValuesArray :=
  {| values := [# x21; x22; x23; x24; x25; x26; x27; x28; x29]; N := x02 |}.

Definition two_objects : gmap addr ValuesArray :=
  <[1%positive := full_array]> (<[2%positive := short_array]> ∅).

(** [full_array] after [short_array] has been assigned into it. *)
Definition full_array_assigned : ValuesArray :=
  {| values := [# x21; x22; x13; x14; x15; x16; x17; x18; x19]; N := x02 |}.

(** More arrays: one with no element, one with a third set of bytes, and a
    variant of [short_array] that differs from it only beyond its count. *)
Definition empty_array : ValuesArray :=
  {| values := [# x31; x32; x33; x34; x35; x36; x37; x38; x39]; N := x00 |}.

Definition nine_array : ValuesArray :=
  {| values := [# x41; x42; x43; x44; x45; x46; x47; x48; x49]; N := x09 |}.

Definition short_array_variant : ValuesArray :=
  {| values := [# x21; x22; xf3; xf4; xf5; xf6; xf7; xf8; xf9]; N := x02 |}.

Definition four_objects : gmap addr ValuesArray :=
  <[1%positive := full_array]>
    (<[2%positive := short_array]>
       (<[3%positive := empty_array]> (<[4%positive := nine_array]> ∅))).

(** A device as the examples use it: storage filled with zeros, the default
    member initialisers applied, then a telemetry snapshot with status 1
    decoded at clock reading 1000. *)
Definition zero_array : ValuesArray :=
  {| values := vreplicate 9 x00; N := x00 |}.

Definition zero_storage : MyLD2410 :=
  {| sData :=
       {| status := x00; timestamp := 0;
          mTargetDistance := 0; mTargetSignal := x00;
          sTargetDistance := 0; sTargetSignal := x00;
          distance := 0;
          mTargetSignals := zero_array; sTargetSignals := zero_array |};
     stationaryThresholds := zero_array;
     movingThresholds := zero_array;
     maxRange := x00; noOne_window := x00;
     version := 0; bufferSize := 0;
     MAC := vreplicate 6 x00;
     MACstr := ""; firmware := "";
     fineRes := 0;
     isEnhanced := false; isConfig := false;
     timeout := 0; dataLifespan := 0;
     inBuf := vreplicate LD2410_BUFFER_SIZE x00; inBufI := x00;
     headBuf := vreplicate 4 x00; headBufI := x00;
     sensor := 1%positive;
     _debug := false |}.

Definition moving_snapshot : SensorData :=
  {| status := x01; timestamp := 0;
     mTargetDistance := 150; mTargetSignal := x50;
     sTargetDistance := 0; sTargetSignal := x00;
     distance := 150;
     mTargetSignals := zero_array; sTargetSignals := zero_array |}.

Definition example_device : MyLD2410 :=
  telemetry_decoded (default_members zero_storage) moving_snapshot 1000.

(** One reading of the status byte as bit flags: bit 0 and bit 1. *)
Definition bit0 (b : byte) : bool := Nat.testbit (Byte.to_nat b) 0.
Definition bit1 (b : byte) : bool := Nat.testbit (Byte.to_nat b) 1.

(** A wait that starts at clock reading 1000 for the acknowledgement of
    command [0x00FF], with [0x0100] as the acknowledgement bit: a telemetry
    frame after 500 ms, an unrelated acknowledgement after 1200 ms, nothing
    at 2000 ms, nothing at 2001 ms. *)
Definition silent_polls : list Poll :=
  [ {| clock := 1500;
       emitted := Some {| dialect := TelemetryDialect; payload := [x02; xaa] |} |};
    {| clock := 2200;
       emitted := Some {| dialect := CommandDialect; payload := [xfe; x01; x00] |} |};
    {| clock := 3000; emitted := None |};
    {| clock := 3001; emitted := None |} ].

(** * Stale slots *)

(** C2 as it is worded: after the assignment, no slot beyond the new count
    still holds the byte it held before. *)
Definition no_stale_slots (before after : ValuesArray) : Prop :=
  ∀ i, count after <= i < 9 →
       vec_to_list (values after) !! i ≠ vec_to_list (values before) !! i.

(** * Properties *)

(** ** Arrays and the two loops *)

Lemma byte_incr_small i : i < 255 → byte_incr i = S i.
Proof. intros Hi. unfold byte_incr. rewrite Nat.mod_small; lia. Qed.

Lemma count_bounded a : count a <= 255.
Proof. apply Byte.to_nat_bounded. Qed.

Lemma load_in_range {n} (a : vec byte n) i :
  i < n → is_Some (load a i).
Proof.
  intros Hi. unfold load. apply lookup_lt_is_Some.
  by rewrite length_vec_to_list.
Qed.

Lemma load_out_of_range {n} (a : vec byte n) i : n <= i → load a i = None.
Proof.
  intros Hi. unfold load. apply lookup_ge_None.
  by rewrite length_vec_to_list.
Qed.

Lemma store_in_range {n} (a : vec byte n) i x :
  i < n → ∃ a', store a i x = Some a' ∧ vec_to_list a' = <[i:=x]> (vec_to_list a).
Proof.
  intros Hi. unfold store. destruct (decide (i < n)) as [Hlt|]; [|lia].
  eexists; split; [reflexivity|].
  by rewrite vec_to_list_insert, fin_to_nat_to_fin.
Qed.

Lemma assign_loop_spec this other i :
  within_capacity this →
  ∃ this',
    assign_loop this other i = Some this' ∧ N this' = N this ∧
    ∀ j, vec_to_list (values this') !! j =
         if decide (i <= j < count this) then vec_to_list (values other) !! j
         else vec_to_list (values this) !! j.
Proof.
  unfold within_capacity.
  funelim (assign_loop this other i); intros Hcap.
  - exists this. split; [reflexivity|split; [reflexivity|]].
    intros j. destruct (decide (i <= j < count this)); [lia|reflexivity].
  - destruct (load_in_range (values other) i) as [x Hx]; [lia|congruence].
  - match goal with
    | IH : _ → ∃ _, assign_loop _ _ _ = _ ∧ _ |- _ =>
        destruct IH as (this' & Hrun & HN & Hval); [exact Hcap|]
    end.
    exists this'. split; [exact Hrun|split; [exact HN|]].
    intros j. rewrite Hval. cbn [values N].
    change (count {| values := vs; N := N this |}) with (count this).
    rewrite byte_incr_small by lia.
    match goal with Hs : store _ _ _ = Some vs |- _ =>
      destruct (store_in_range (values this) i x) as (vs' & Hvs' & Hlist); [lia|];
      rewrite Hs in Hvs'; injection Hvs' as <- end.
    match goal with Hl : load _ _ = Some x |- _ => unfold load in Hl end.
    rewrite Hlist.
    destruct (decide (j = i)) as [->|Hne].
    + rewrite list_lookup_insert_eq by (rewrite length_vec_to_list; lia).
      destruct (decide (S i <= i < count this)); [lia|].
      destruct (decide (i <= i < count this)); [congruence|lia].
    + rewrite list_lookup_insert_ne by done.
      destruct (decide (S i <= j < count this)),
               (decide (i <= j < count this)); try lia; reflexivity.
  - match goal with Hs : store _ _ _ = None |- _ =>
      destruct (store_in_range (values this) i x) as (vs' & Hvs' & _); [lia|];
      congruence end.
Qed.

(** The guarded block copies the count and the first [N] slots of [other],
    and leaves the remaining slots of [this] as they were. *)
Lemma assign_body_spec this other :
  within_capacity other →
  ∃ this',
    assign_body this other = Some this' ∧ N this' = N other ∧
    (∀ j, j < count other →
          vec_to_list (values this') !! j = vec_to_list (values other) !! j) ∧
    (∀ j, count other <= j →
          vec_to_list (values this') !! j = vec_to_list (values this) !! j).
Proof.
  intros Hcap. unfold assign_body.
  destruct (assign_loop_spec {| values := values this; N := N other |} other 0)
    as (this' & Hrun & HN & Hval); [exact Hcap|].
  change (count {| values := values this; N := N other |})
    with (count other) in Hval.
  exists this'. split; [exact Hrun|]. split; [exact HN|].
  split; intros j Hj; rewrite Hval.
  - destruct (decide (0 <= j < count other)); [reflexivity|lia].
  - destruct (decide (0 <= j < count other)); [lia|reflexivity].
Qed.

Lemma contents_lookup a j :
  j < count a → contents a !! j = vec_to_list (values a) !! j.
Proof. intros Hj. unfold contents. by apply lookup_take_lt. Qed.

Lemma contents_length a : within_capacity a → length (contents a) = count a.
Proof.
  unfold within_capacity, contents. intros Hcap.
  rewrite length_take, length_vec_to_list. lia.
Qed.

(** Two arrays with the same count and the same first [N] slots have the
    same contents. *)
Lemma contents_ext a b :
  N a = N b →
  (∀ j, j < count b →
        vec_to_list (values a) !! j = vec_to_list (values b) !! j) →
  contents a = contents b.
Proof.
  intros HN Hval. apply list_eq. intros j.
  assert (count a = count b) as Hc by (unfold count; by rewrite HN).
  unfold contents. rewrite Hc.
  destruct (decide (j < count b)) as [Hj|Hj].
  - rewrite !lookup_take_lt by done. by apply Hval.
  - rewrite !lookup_take_ge by lia. reflexivity.
Qed.

(** ** The traversal *)

Lemma forEach_loop_dangling {W : Type} (func : callback W) this i h w :
  h !! this = None → forEach_loop func this i h w = None.
Proof. intros Hnone. simp forEach_loop. rewrite Hnone. reflexivity. Qed.

(** One turn of the loop on a live object. *)
Lemma forEach_loop_step {W : Type} (func : callback W) this i h w a :
  h !! this = Some a →
  forEach_loop func this i h w =
  if decide (i < count a) then
    if decide (i < 9) then
      forEach_loop func this (S i)
                   (func this i (h, w)).1 (func this i (h, w)).2
    else None
  else Some (h, w).
Proof.
  intros Ha.
  set (next := forEach_loop func this (S i) _ _).
  simp forEach_loop. rewrite Ha. cbn.
  destruct (decide (i < count a)) as [Hi|Hi]; cbn; [|reflexivity].
  pose proof (count_bounded a).
  destruct (decide (i < 9)) as [Hi9|Hi9].
  - destruct (load_in_range (values a) i Hi9) as [x Hx].
    rewrite Hx. cbn -[byte_incr]. rewrite byte_incr_small by lia. reflexivity.
  - rewrite load_out_of_range by lia. reflexivity.
Qed.

Lemma by_value_leaves_alone {W : Type} (g : byte → W → W) p a :
  leaves_alone (by_value g) p a.
Proof.
  intros i h w Ha. unfold by_value. cbn. rewrite Ha.
  by destruct (load (values a) i).
Qed.

Section forEach_properties.
Context {W : Type}.
Variable func : callback W.

(** With a callback that leaves the traversed array alone, the loop calls
    it once on each slot from [i] up to the count, in order. *)
Lemma forEach_loop_spec this a (k : nat) :
  within_capacity a → leaves_alone func this a →
  ∀ i h w, h !! this = Some a → count a - i = k →
    forEach_loop func this i h w =
    Some (foldl (λ s j, func this j s) (h, w) (seq i k)).
Proof.
  intros Hcap Halone. unfold within_capacity in Hcap.
  induction k as [|k IH]; intros i h w Ha Hk.
  - rewrite (forEach_loop_step func this i h w a Ha).
    destruct (decide (i < count a)); [lia|reflexivity].
  - rewrite (forEach_loop_step func this i h w a Ha).
    destruct (decide (i < count a)); [|lia].
    destruct (decide (i < 9)); [|lia].
    rewrite IH; [|by apply Halone|lia].
    cbn [seq foldl]. by destruct (func this i (h, w)).
Qed.

Lemma forEach_spec this a h w :
  h !! this = Some a → within_capacity a → leaves_alone func this a →
  forEach func this (h, w) =
  Some (foldl (λ s j, func this j s) (h, w) (seq 0 (count a))).
Proof.
  intros Ha Hcap Halone. unfold forEach. cbn.
  apply (forEach_loop_spec this a); [done..|lia].
Qed.

(** Beyond the capacity the loop leaves the array, at index 9. *)
Lemma forEach_loop_beyond_capacity this a :
  9 < count a → leaves_alone func this a →
  ∀ k i h w, h !! this = Some a → 9 - i = k → i <= 9 →
    forEach_loop func this i h w = None.
Proof.
  intros Hbig Halone.
  induction k as [|k IH]; intros i h w Ha Hk Hi.
  - rewrite (forEach_loop_step func this i h w a Ha).
    destruct (decide (i < count a)); [|lia].
    destruct (decide (i < 9)); [lia|reflexivity].
  - rewrite (forEach_loop_step func this i h w a Ha).
    destruct (decide (i < count a)); [|lia].
    destruct (decide (i < 9)); [|lia].
    apply IH; [by apply Halone|lia|lia].
Qed.

Lemma forEach_beyond_capacity this a h w :
  h !! this = Some a → 9 < count a → leaves_alone func this a →
  forEach func this (h, w) = None.
Proof.
  intros Ha Hbig Halone. unfold forEach. cbn.
  apply (forEach_loop_beyond_capacity this a Hbig Halone 9); [exact Ha|lia|lia].
Qed.
End forEach_properties.

(** The calls of a by-value callback on slots [i], [i + 1], ... fold it
    over the bytes in those slots. *)
Lemma foldl_by_value {W : Type} (g : byte → W → W) this a h (k : nat) :
  h !! this = Some a →
  ∀ i w, i + k <= 9 →
    foldl (λ s j, by_value g this j s) (h, w) (seq i k)
    = (h, foldl (λ w' x, g x w') w (take k (drop i (vec_to_list (values a))))).
Proof.
  intros Ha. induction k as [|k IH]; intros i w Hik; [reflexivity|].
  cbn [seq foldl].
  destruct (load_in_range (values a) i) as [x Hx]; [lia|].
  assert (by_value g this i (h, w) = (h, g x w)) as ->
    by (unfold by_value; cbn; by rewrite Ha, Hx).
  rewrite IH by lia. f_equal.
  unfold load in Hx. by rewrite (drop_S _ x i Hx).
Qed.

(** A by-value callback is folded over the first [N] bytes of the array, and
    the heap comes back as it was. *)
Lemma forEach_by_value {W : Type} (g : byte → W → W) this a h w :
  h !! this = Some a → within_capacity a →
  forEach (by_value g) this (h, w)
  = Some (h, foldl (λ w' x, g x w') w (contents a)).
Proof.
  intros Ha Hcap.
  rewrite (forEach_spec _ this a) by (done || apply by_value_leaves_alone).
  rewrite (foldl_by_value g this a h (count a) Ha 0 w) by done.
  reflexivity.
Qed.

Lemma foldl_snoc_log {A} (l log : list A) :
  foldl (λ calls x, calls ++ [x]) log l = log ++ l.
Proof.
  revert log. induction l as [|x l IH]; intros log; cbn.
  - by rewrite app_nil_r.
  - rewrite IH. by rewrite <- app_assoc.
Qed.

(** Beyond the capacity both loops leave the array: with [N > 9] they reach
    index 9, outside [values]. *)
Lemma store_Some_in_range {n} (a a' : vec byte n) i x :
  store a i x = Some a' → i < n.
Proof. unfold store. destruct (decide (i < n)); [done|discriminate]. Qed.

Lemma assign_loop_beyond_capacity this other i :
  i <= 9 → 9 < count this → assign_loop this other i = None.
Proof.
  funelim (assign_loop this other i); intros Hi Hbig.
  - lia.
  - reflexivity.
  - match goal with
    | Hs : store _ _ _ = Some vs |- _ => apply store_Some_in_range in Hs
    end.
    match goal with
    | IH : _ → _ → assign_loop _ _ _ = None |- _ => apply IH
    end.
    + rewrite byte_incr_small by lia. lia.
    + exact Hbig.
  - reflexivity.
Qed.

Lemma assign_body_beyond_capacity this other :
  9 < count other → assign_body this other = None.
Proof.
  intros Hbig. unfold assign_body.
  apply assign_loop_beyond_capacity; [lia|exact Hbig].
Qed.

(** What [operator=] does to the store when the two references differ. *)
Lemma operator_assign_distinct (h : gmap addr ValuesArray) this other a b :
  h !! this = Some a → h !! other = Some b → this ≠ other →
  operator_assign h this other =
  match assign_body a b with
  | Some a' => Some (<[this := a']> h, this)
  | None => None
  end.
Proof.
  intros Ha Hb Hne. unfold operator_assign.
  destruct (decide (this ≠ other)) as [_|Heq]; [|done].
  rewrite Ha, Hb. cbn. by destruct (assign_body a b).
Qed.

Example assign_short_into_full :
  operator_assign two_objects 1 2
  = Some (<[1%positive := full_array_assigned]> two_objects, 1%positive).
Proof. vm_compute. reflexivity. Qed.

Example forEach_full_array :
  forEach (by_value (λ x calls, calls ++ [x])) 1%positive (two_objects, [])
  = Some (two_objects, [x11; x12; x13; x14; x15; x16; x17; x18; x19]).
Proof. vm_compute. reflexivity. Qed.

(** The loop follows the count as the callback changes it. *)
Example forEach_follows_raised_count :
  snd <$> forEach note_and_set_count_4 2%positive (two_objects, [])
  = Some [x21; x22; x23; x24].
Proof. vm_compute. reflexivity. Qed.

(** ** Claims about [ValuesArray] *)

(** C1. Assigning [b] into a distinct object [a] copies exactly [b.N]
    elements: afterwards [a.N = b.N] and [a.values[i] = b.values[i]] for
    every [i < b.N], while every slot at an index [i >= b.N] still holds
    what [a] held, so the backing storage is not copied as a whole.  [b]
    is a ValuesArray of the data model, with [N <= 9]. *)
Theorem operator_assign_copies_N_elements
    (h : gmap addr ValuesArray) this other a b :
  h !! this = Some a → h !! other = Some b → this ≠ other →
  within_capacity b →
  ∃ a',
    operator_assign h this other = Some (<[this := a']> h, this) ∧
    N a' = N b ∧
    (∀ i, i < count b →
          vec_to_list (values a') !! i = vec_to_list (values b) !! i) ∧
    (∀ i, count b <= i →
          vec_to_list (values a') !! i = vec_to_list (values a) !! i) ∧
    <[this := a']> h !! other = Some b.
Proof.
  intros Ha Hb Hne Hcap.
  destruct (assign_body_spec a b Hcap) as (a' & Hrun & HN & Hlow & Hhigh).
  exists a'. rewrite (operator_assign_distinct h this other a b) by done.
  rewrite Hrun. split; [reflexivity|]. split; [exact HN|].
  split; [exact Hlow|]. split; [exact Hhigh|].
  by rewrite lookup_insert_ne.
Qed.

Lemma operator_assign_copies_N_elements_witness :
  two_objects !! 1%positive = Some full_array ∧
  two_objects !! 2%positive = Some short_array ∧
  1%positive ≠ 2%positive ∧
  within_capacity short_array ∧
  ∃ a',
    operator_assign two_objects 1 2
    = Some (<[1%positive := a']> two_objects, 1%positive) ∧
    N a' = N short_array ∧
    (∀ i, i < count short_array →
          vec_to_list (values a') !! i = vec_to_list (values short_array) !! i) ∧
    (∀ i, count short_array <= i →
          vec_to_list (values a') !! i = vec_to_list (values full_array) !! i) ∧
    <[1%positive := a']> two_objects !! 2%positive = Some short_array.
Proof.
  assert (two_objects !! 1%positive = Some full_array) as H1
    by (vm_compute; reflexivity).
  assert (two_objects !! 2%positive = Some short_array) as H2
    by (vm_compute; reflexivity).
  assert (1%positive ≠ 2%positive) as Hne by discriminate.
  assert (within_capacity short_array) as Hcap
    by (unfold within_capacity; vm_compute; lia).
  split; [exact H1|]. split; [exact H2|]. split; [exact Hne|].
  split; [exact Hcap|].
  exact (operator_assign_copies_N_elements
           two_objects 1%positive 2%positive full_array short_array
           H1 H2 Hne Hcap).
Defined.

(** C2, as stated, fails: assigning the two-element [short_array] into the
    nine-element [full_array] leaves slots 2 to 8 of the target exactly as
    they were. *)
Lemma stale_slots_remain :
  count short_array < count full_array ∧
  operator_assign two_objects 1 2
  = Some (<[1%positive := full_array_assigned]> two_objects, 1%positive) ∧
  ¬ no_stale_slots full_array full_array_assigned.
Proof.
  split; [vm_compute; lia|]. split; [vm_compute; reflexivity|].
  intros Hclaim. apply (Hclaim 2); [vm_compute; lia|reflexivity].
Qed.

(** C2, amended. Assigning a smaller-count [b] into a distinct larger-count
    [a] does not clear the slots of [a] beyond the new count: each slot at
    an index [b.N <= i < 9] still holds the byte [a] held before.  Those
    slots lie outside the new count [a.N = b.N]: the first [a.N] elements
    of [a] are exactly those of [b], and [forEach] on [a], with a callback
    that only reads the element it is handed and leaves the arrays alone,
    visits what it visits on [b]. *)
Theorem operator_assign_keeps_slots_beyond_count
    (h : gmap addr ValuesArray) this other a b :
  h !! this = Some a → h !! other = Some b → this ≠ other →
  within_capacity b → count b < count a →
  ∃ a',
    operator_assign h this other = Some (<[this := a']> h, this) ∧
    count a' = count b ∧
    (∀ i, count b <= i < 9 →
          vec_to_list (values a') !! i = vec_to_list (values a) !! i) ∧
    contents a' = contents b ∧
    (∀ (W : Type) (g : byte → W → W) (w : W),
        forEach (by_value g) this (<[this := a']> h, w)
        = Some (<[this := a']> h, foldl (λ w' x, g x w') w (contents b)) ∧
        forEach (by_value g) other (<[this := a']> h, w)
        = Some (<[this := a']> h, foldl (λ w' x, g x w') w (contents b))).
Proof.
  intros Ha Hb Hne Hcap Hlt.
  destruct (assign_body_spec a b Hcap) as (a' & Hrun & HN & Hlow & Hhigh).
  assert (count a' = count b) as Hc by (unfold count; by rewrite HN).
  assert (contents a' = contents b) as Hcont by (by apply contents_ext).
  assert (within_capacity a') as Hcap'
    by (unfold within_capacity in *; lia).
  exists a'. rewrite (operator_assign_distinct h this other a b) by done.
  rewrite Hrun. split; [reflexivity|]. split; [exact Hc|].
  split; [intros i [Hi _]; by apply Hhigh|]. split; [exact Hcont|].
  intros W g w. split.
  - rewrite (forEach_by_value g this a'); [by rewrite Hcont| |exact Hcap'].
    by rewrite lookup_insert_eq.
  - rewrite (forEach_by_value g other b); [reflexivity| |exact Hcap].
    by rewrite lookup_insert_ne.
Qed.

Lemma operator_assign_keeps_slots_beyond_count_witness :
  two_objects !! 1%positive = Some full_array ∧
  two_objects !! 2%positive = Some short_array ∧
  1%positive ≠ 2%positive ∧
  within_capacity short_array ∧
  count short_array < count full_array ∧
  ∃ a',
    operator_assign two_objects 1 2
    = Some (<[1%positive := a']> two_objects, 1%positive) ∧
    count a' = count short_array ∧
    (∀ i, count short_array <= i < 9 →
          vec_to_list (values a') !! i = vec_to_list (values full_array) !! i) ∧
    contents a' = contents short_array ∧
    (∀ (W : Type) (g : byte → W → W) (w : W),
        forEach (by_value g) 1%positive (<[1%positive := a']> two_objects, w)
        = Some (<[1%positive := a']> two_objects,
                foldl (λ w' x, g x w') w (contents short_array)) ∧
        forEach (by_value g) 2%positive (<[1%positive := a']> two_objects, w)
        = Some (<[1%positive := a']> two_objects,
                foldl (λ w' x, g x w') w (contents short_array))).
Proof.
  assert (two_objects !! 1%positive = Some full_array) as H1
    by (vm_compute; reflexivity).
  assert (two_objects !! 2%positive = Some short_array) as H2
    by (vm_compute; reflexivity).
  assert (1%positive ≠ 2%positive) as Hne by discriminate.
  assert (within_capacity short_array) as Hcap
    by (unfold within_capacity; vm_compute; lia).
  assert (count short_array < count full_array) as Hlt by (vm_compute; lia).
  split; [exact H1|]. split; [exact H2|]. split; [exact Hne|].
  split; [exact Hcap|]. split; [exact Hlt|].
  exact (operator_assign_keeps_slots_beyond_count
           two_objects 1%positive 2%positive full_array short_array
           H1 H2 Hne Hcap Hlt).
Defined.

(** C4. A ValuesArray holds at most 9 bytes, and the invariant [N <= 9] is
    kept by assignment: assigning an array with [N <= 9] into any array
    (the same object or another) returns, leaves the target with [N <= 9]
    and with exactly [N] meaningful elements, touches no other object, and
    so keeps the invariant on a store where it held.  [forEach], the only
    other operation, is [const]. *)
Theorem operator_assign_preserves_capacity
    (h : gmap addr ValuesArray) this other a b :
  h !! this = Some a → h !! other = Some b → within_capacity b →
  ∃ h' a',
    operator_assign h this other = Some (h', this) ∧
    h' !! this = Some a' ∧
    within_capacity a' ∧
    length (contents a') = count a' ∧
    length (vec_to_list (values a')) = 9 ∧
    (∀ p, p ≠ this → h' !! p = h !! p) ∧
    (map_Forall (λ _, within_capacity) h →
     map_Forall (λ _, within_capacity) h').
Proof.
  intros Ha Hb Hcap.
  destruct (decide (this = other)) as [->|Hne].
  - assert (a = b) as -> by congruence.
    exists h, b. unfold operator_assign.
    destruct (decide (other ≠ other)) as [Hne|_]; [done|].
    split; [reflexivity|]. split; [exact Hb|]. split; [exact Hcap|].
    split; [by apply contents_length|].
    split; [by rewrite length_vec_to_list|]. split; done.
  - destruct (assign_body_spec a b Hcap) as (a' & Hrun & HN & _ & _).
    assert (within_capacity a') as Hcap'
      by (unfold within_capacity, count in *; by rewrite HN).
    exists (<[this := a']> h), a'.
    rewrite (operator_assign_distinct h this other a b) by done.
    rewrite Hrun. split; [reflexivity|].
    split; [by rewrite lookup_insert_eq|]. split; [exact Hcap'|].
    split; [by apply contents_length|].
    split; [by rewrite length_vec_to_list|].
    split; [intros p Hp; by rewrite lookup_insert_ne|].
    intros Hall. by apply map_Forall_insert_2.
Qed.

Lemma operator_assign_preserves_capacity_witness :
  two_objects !! 1%positive = Some full_array ∧
  two_objects !! 2%positive = Some short_array ∧
  within_capacity short_array ∧
  ∃ h' a',
    operator_assign two_objects 1 2 = Some (h', 1%positive) ∧
    h' !! 1%positive = Some a' ∧
    within_capacity a' ∧
    length (contents a') = count a' ∧
    length (vec_to_list (values a')) = 9 ∧
    (∀ p, p ≠ 1%positive → h' !! p = two_objects !! p) ∧
    (map_Forall (λ _, within_capacity) two_objects →
     map_Forall (λ _, within_capacity) h').
Proof.
  assert (two_objects !! 1%positive = Some full_array) as H1
    by (vm_compute; reflexivity).
  assert (two_objects !! 2%positive = Some short_array) as H2
    by (vm_compute; reflexivity).
  assert (within_capacity short_array) as Hcap
    by (unfold within_capacity; vm_compute; lia).
  split; [exact H1|]. split; [exact H2|]. split; [exact Hcap|].
  exact (operator_assign_preserves_capacity
           two_objects 1%positive 2%positive full_array short_array
           H1 H2 Hcap).
Defined.

(** C5. Self-assignment is an identity: assigning the object at [a] into
    itself leaves the store, hence [a.N] and every [a.values[i]],
    unchanged, and the reference returned is [a]. *)
Theorem operator_assign_self (h : gmap addr ValuesArray) (a : addr) :
  operator_assign h a a = Some (h, a).
Proof.
  unfold operator_assign.
  destruct (decide (a ≠ a)) as [Hne|_]; [done|reflexivity].
Qed.

(** C6, as stated for every callback, fails: the loop reads [N] anew on
    each turn, so a callback that sets the count of the traversed array to
    4 is called four times on an array entered with [N = 2], and is handed
    the slots 2 and 3. *)
Lemma forEach_follows_changed_count :
  two_objects !! 2%positive = Some short_array ∧
  count short_array = 2 ∧
  forEach note_and_set_count_4 2%positive (two_objects, [])
  = Some (<[2%positive := {| values := values short_array; N := x04 |}]>
            two_objects,
          [x21; x22; x23; x24]) ∧
  [x21; x22; x23; x24] ≠ contents short_array.
Proof.
  split; [vm_compute; reflexivity|]. split; [reflexivity|].
  split; [vm_compute; reflexivity|]. vm_compute. discriminate.
Qed.

(** C6, amended. For every ValuesArray [a] of the data model, with
    [N <= 9], and every callback [f] that leaves [a] alone, [a.forEach(f)]
    calls [f] exactly [a.N] times, on references to [a.values[0]] up to
    [a.values[a.N - 1]] in increasing index order, and on no slot at an
    index [i >= a.N].  With a callback that reads the element it is handed,
    the bytes it sees are the first [a.N] bytes of [a] in order, and the
    slots beyond [a.N] have no influence on the run. *)
Theorem forEach_visits_first_N
    {W : Type} (func : callback W) (this : addr) (a : ValuesArray)
    (h : gmap addr ValuesArray) (w : W) :
  h !! this = Some a → within_capacity a → leaves_alone func this a →
  forEach func this (h, w)
  = Some (foldl (λ s i, func this i s) (h, w) (seq 0 (count a))) ∧
  length (seq 0 (count a)) = count a ∧
  (∀ i, i ∈ seq 0 (count a) ↔ i < count a) ∧
  (∀ g : byte → W → W,
      forEach (by_value g) this (h, w)
      = Some (h, foldl (λ w' x, g x w') w (contents a))) ∧
  forEach (by_value (λ x calls, calls ++ [x])) this (h, [])
  = Some (h, contents a) ∧
  length (contents a) = count a ∧
  (∀ i, i < count a → contents a !! i = vec_to_list (values a) !! i) ∧
  (∀ (g : byte → W → W) a',
      N a' = N a →
      (∀ i, i < count a →
            vec_to_list (values a') !! i = vec_to_list (values a) !! i) →
      forEach (by_value g) this (<[this := a']> h, w)
      = Some (<[this := a']> h, foldl (λ w' x, g x w') w (contents a))).
Proof.
  intros Ha Hcap Halone.
  split; [by apply forEach_spec|].
  split; [apply length_seq|].
  split; [intros i; rewrite elem_of_seq; lia|].
  split; [intros g; by apply forEach_by_value|].
  split; [rewrite (forEach_by_value _ this a) by done;
          by rewrite foldl_snoc_log|].
  split; [by apply contents_length|].
  split; [intros i Hi; by apply contents_lookup|].
  intros g a' HN Hval.
  assert (within_capacity a') as Hcap'
    by (unfold within_capacity, count in *; by rewrite HN).
  rewrite (forEach_by_value g this a');
    [|by rewrite lookup_insert_eq|exact Hcap'].
  by rewrite (contents_ext a' a).
Qed.

Lemma forEach_visits_first_N_witness :
  two_objects !! 2%positive = Some short_array ∧
  within_capacity short_array ∧
  leaves_alone (by_value (λ x calls, x :: calls)) 2%positive short_array ∧
  forEach (by_value (λ x calls, x :: calls)) 2%positive (two_objects, [])
  = Some (foldl (λ s i, by_value (λ x calls, x :: calls) 2%positive i s)
                (two_objects, []) (seq 0 (count short_array))) ∧
  forEach (by_value (λ x calls, x :: calls)) 2%positive (two_objects, [])
  = Some (two_objects, [x22; x21]).
Proof.
  assert (two_objects !! 2%positive = Some short_array) as H2
    by (vm_compute; reflexivity).
  assert (within_capacity short_array) as Hcap
    by (unfold within_capacity; vm_compute; lia).
  assert (leaves_alone (by_value (λ x calls, x :: calls)) 2%positive short_array)
    as Halone by apply by_value_leaves_alone.
  split; [exact H2|]. split; [exact Hcap|]. split; [exact Halone|].
  destruct (forEach_visits_first_N
              (by_value (λ x calls, x :: calls)) 2%positive short_array
              two_objects [] H2 Hcap Halone) as (Hrun & _ & _ & Hval & _).
  split; [exact Hrun|]. exact (Hval (λ x calls, x :: calls)).
Defined.

(** ** Claims about the device model *)

Lemma ulong_wrap_gap (t d : Z) :
  (0 <= d < ulong_modulus)%Z → ulong_wrap (ulong_wrap (t + d) - t) = d.
Proof.
  intros Hd. unfold ulong_wrap.
  rewrite Zminus_mod_idemp_l.
  replace (t + d - t)%Z with d by lia.
  by apply Z.mod_small.
Qed.

Lemma isDataValid_gap m (d : Z) :
  (0 <= d < ulong_modulus)%Z →
  isDataValid m (ulong_wrap (timestamp (sData m) + d)) = (d <? dataLifespan m)%Z.
Proof. intros Hd. unfold isDataValid. by rewrite ulong_wrap_gap. Qed.

(** C3. For a stored snapshot with timestamp [t], every detection query
    made at [t + dataLifespan + 1] reports not detected, and a query made
    at [t + dataLifespan - 1] reports what the status flags say, so detected
    when they say detected; after a successful telemetry decode the
    snapshot is fresh again, from the time of receipt until [dataLifespan]
    has passed.  Times are readings of the 32-bit clock. *)
Theorem staleness_boundary
    (movingFlag stationaryFlag : byte → bool) (m : MyLD2410) :
  (0 < dataLifespan m)%Z → (dataLifespan m + 1 < ulong_modulus)%Z →
  (∀ now, now = ulong_wrap (timestamp (sData m) + (dataLifespan m + 1)) →
     presenceDetected movingFlag stationaryFlag m now = false ∧
     movingTargetDetected movingFlag m now = false ∧
     stationaryTargetDetected stationaryFlag m now = false) ∧
  (∀ now, now = ulong_wrap (timestamp (sData m) + (dataLifespan m - 1)) →
     presenceDetected movingFlag stationaryFlag m now
     = movingFlag (status (sData m)) || stationaryFlag (status (sData m)) ∧
     movingTargetDetected movingFlag m now = movingFlag (status (sData m)) ∧
     stationaryTargetDetected stationaryFlag m now
     = stationaryFlag (status (sData m))) ∧
  (∀ snapshot received d, (0 <= d < dataLifespan m)%Z →
     isDataValid (telemetry_decoded m snapshot received)
                 (ulong_wrap (received + d)) = true ∧
     presenceDetected movingFlag stationaryFlag
                      (telemetry_decoded m snapshot received)
                      (ulong_wrap (received + d))
     = movingFlag (status snapshot) || stationaryFlag (status snapshot)).
Proof.
  intros Hpos Hfit.
  assert (isDataValid m
            (ulong_wrap (timestamp (sData m) + (dataLifespan m + 1))) = false)
    as Hstale.
  { rewrite isDataValid_gap by lia. apply Z.ltb_ge. lia. }
  assert (isDataValid m
            (ulong_wrap (timestamp (sData m) + (dataLifespan m - 1))) = true)
    as Hfresh.
  { rewrite isDataValid_gap by lia. apply Z.ltb_lt. lia. }
  split; [|split].
  - intros now ->.
    unfold presenceDetected, movingTargetDetected, stationaryTargetDetected.
    by rewrite Hstale.
  - intros now ->.
    unfold presenceDetected, movingTargetDetected, stationaryTargetDetected.
    by rewrite Hfresh.
  - intros snapshot received d Hd.
    assert (isDataValid (telemetry_decoded m snapshot received)
                        (ulong_wrap (received + d)) = true) as Hnew.
    { unfold isDataValid. cbn [telemetry_decoded sData timestamp dataLifespan].
      unfold ulong_wrap.
      rewrite Zminus_mod_idemp_l, Zminus_mod_idemp_r.
      replace (received + d - received)%Z with d by lia.
      rewrite Z.mod_small by lia.
      apply Z.ltb_lt. lia. }
    split; [exact Hnew|].
    unfold presenceDetected. by rewrite Hnew.
Qed.

Example example_device_fresh_at_1499 :
  presenceDetected bit0 bit1 example_device 1499 = true.
Proof. vm_compute. reflexivity. Qed.

Example example_device_stale_at_1501 :
  presenceDetected bit0 bit1 example_device 1501 = false.
Proof. vm_compute. reflexivity. Qed.

Lemma staleness_boundary_witness :
  (0 < dataLifespan example_device)%Z ∧
  (dataLifespan example_device + 1 < ulong_modulus)%Z ∧
  presenceDetected bit0 bit1 example_device 1501 = false ∧
  presenceDetected bit0 bit1 example_device 1499 = true.
Proof.
  assert (0 < dataLifespan example_device)%Z as Hpos by (vm_compute; reflexivity).
  assert (dataLifespan example_device + 1 < ulong_modulus)%Z as Hfit
    by (vm_compute; reflexivity).
  split; [exact Hpos|]. split; [exact Hfit|].
  destruct (staleness_boundary bit0 bit1 example_device Hpos Hfit)
    as (Hstale & Hfresh & _).
  split.
  - exact (proj1 (Hstale 1501%Z eq_refl)).
  - exact (proj1 (Hfresh 1499%Z eq_refl)).
Defined.

(** With no acknowledgement among the observations, the wait ends in
    [Timeout] at the first poll whose elapsed time exceeds the limit, and is
    still waiting if there is none. *)
Lemma await_ack_without_ack (ack_bit limit start code : Z) (polls : list Poll) :
  ack_never_arrives ack_bit code polls →
  await_ack ack_bit limit start code polls =
  if decide (Exists (λ p, limit < elapsed start p)%Z polls)
  then Some Timeout else None.
Proof.
  unfold ack_never_arrives.
  induction polls as [|p later IH]; intros Hnone; cbn [await_ack].
  - destruct (decide (Exists _ [])) as [Hex|_]; [by inversion Hex|reflexivity].
  - apply Forall_cons in Hnone as [Hp Hlater].
    destruct (limit <? elapsed start p)%Z eqn:Hlim.
    + apply Z.ltb_lt in Hlim.
      destruct (decide (Exists _ (p :: later))) as [_|Hno]; [reflexivity|].
      destruct Hno. by apply Exists_cons_hd.
    + apply Z.ltb_ge in Hlim.
      assert (await_ack ack_bit limit start code later =
              if decide (Exists (λ p, limit < elapsed start p)%Z (p :: later))
              then Some Timeout else None) as Hrest.
      { rewrite IH by done.
        destruct (decide (Exists _ later)) as [Hex|Hno],
                 (decide (Exists _ (p :: later))) as [Hex'|Hno'];
          try reflexivity.
        - destruct Hno'. by apply Exists_cons_tl.
        - apply Exists_cons in Hex' as [Hhd|Htl]; [lia|done]. }
      destruct (emitted p) as [f|]; [|exact Hrest].
      rewrite (Hp f eq_refl). exact Hrest.
Qed.

(** C7. Unless changed, the timeout that bounds the wait for an
    acknowledgement is 2000 ms: on a newly initialised object, a send whose
    acknowledgement never arrives returns [Timeout], a [false] result, once
    a poll finds more than 2000 ms elapsed, and is still waiting as long as
    every poll finds at most 2000 ms elapsed. *)
Theorem default_timeout_bounds_wait
    (ack_bit : Z) (raw : MyLD2410) (start code : Z) (polls : list Poll) :
  ack_never_arrives ack_bit code polls →
  timeout (default_members raw) = 2000%Z ∧
  (Exists (λ p, 2000 < elapsed start p)%Z polls →
   await_ack ack_bit (timeout (default_members raw)) start code polls
   = Some Timeout ∧
   sendCommand ack_bit (default_members raw) start code polls = Some false) ∧
  (Forall (λ p, elapsed start p <= 2000)%Z polls →
   sendCommand ack_bit (default_members raw) start code polls = None).
Proof.
  intros Hnone. split; [reflexivity|].
  unfold sendCommand. cbn [default_members timeout].
  rewrite (await_ack_without_ack ack_bit 2000 start code polls Hnone).
  split.
  - intros Hex.
    destruct (decide (Exists _ polls)) as [_|Hno]; [done|contradiction].
  - intros Hall.
    destruct (decide (Exists _ polls)) as [Hex|_]; [|reflexivity].
    apply Exists_exists in Hex as (p & Hin & Hp).
    rewrite Forall_forall in Hall. specialize (Hall p Hin). lia.
Qed.

Example matching_ack_ends_wait :
  sendCommand 0x0100 (default_members zero_storage) 1000 0x00FF
    [ {| clock := 1500; emitted := None |};
      {| clock := 1600;
         emitted := Some {| dialect := CommandDialect;
                            payload := [xff; x01; x00; x00] |} |} ]
  = Some true.
Proof. vm_compute. reflexivity. Qed.

Example wait_at_exactly_2000_goes_on :
  sendCommand 0x0100 (default_members zero_storage) 1000 0x00FF
    (take 3 silent_polls) = None.
Proof. vm_compute. reflexivity. Qed.

Lemma default_timeout_bounds_wait_witness :
  ack_never_arrives 0x0100 0x00FF silent_polls ∧
  timeout (default_members zero_storage) = 2000%Z ∧
  sendCommand 0x0100 (default_members zero_storage) 1000 0x00FF silent_polls
  = Some false.
Proof.
  assert (ack_never_arrives 0x0100 0x00FF silent_polls) as Hnone.
  { unfold ack_never_arrives, silent_polls.
    repeat apply Forall_cons_2; try apply Forall_nil_2;
      cbn [emitted]; intros f Hf; inversion Hf; reflexivity. }
  split; [exact Hnone|].
  destruct (default_timeout_bounds_wait
              0x0100%Z zero_storage 1000%Z 0x00FF%Z silent_polls Hnone)
    as (Hdefault & Hlate & _).
  split; [exact Hdefault|].
  apply Hlate. unfold silent_polls.
  do 3 apply Exists_cons_tl. apply Exists_cons_hd.
  vm_compute. reflexivity.
Defined.

(** C8. On a newly initialised object, before anything changes it, the
    lifespan that governs staleness is 500 ms, a value an [unsigned long]
    holds. *)
Theorem dataLifespan_default (raw : MyLD2410) :
  dataLifespan (default_members raw) = 500%Z ∧
  (0 <= dataLifespan (default_members raw) < ulong_modulus)%Z.
Proof. split; [reflexivity|]. cbn. unfold ulong_modulus. lia. Qed.

(** At the default, a snapshot is valid exactly while less than 500 ms
    have passed on the clock since its timestamp. *)
Lemma default_lifespan_governs_staleness (raw : MyLD2410) (d : Z) :
  (0 <= d < ulong_modulus)%Z →
  isDataValid (default_members raw)
              (ulong_wrap (timestamp (sData (default_members raw)) + d))
  = (d <? 500)%Z.
Proof. intros Hd. by rewrite isDataValid_gap. Qed.

(** C9. A [Response], the result type of [check], is one of the three
    values [FAIL], [ACK], [DATA]; [FAIL] is 0 and the other two are not;
    so a result converts to [false] exactly when it is [FAIL], and to
    [true] when it is [ACK] or [DATA]. *)
Theorem Response_false_iff_FAIL (r : Response) :
  (r = FAIL ∨ r = ACK ∨ r = DATA) ∧
  Response_value FAIL = 0%Z ∧
  Response_value ACK ≠ 0%Z ∧
  Response_value DATA ≠ 0%Z ∧
  (Response_to_bool r = false ↔ r = FAIL) ∧
  (Response_to_bool r = true ↔ r = ACK ∨ r = DATA).
Proof.
  split; [destruct r; auto|].
  split; [reflexivity|]. split; [discriminate|]. split; [discriminate|].
  split; destruct r; cbn; split; intros H;
    try reflexivity; try discriminate; auto;
    destruct H; discriminate.
Qed.

(** C10. The MAC address is exactly 6 bytes: the device model stores it as
    an array of 6 bytes, and [getMAC] hands out that array. *)
Theorem getMAC_six_bytes (m : MyLD2410) :
  getMAC m = MAC m ∧
  length (vec_to_list (MAC m)) = 6 ∧
  length (vec_to_list (getMAC m)) = 6.
Proof.
  split; [reflexivity|].
  split; apply length_vec_to_list.
Qed.

(** ** Further properties of [operator=] and [forEach] *)

(** Two arrays with the same count and the same nine slots are equal. *)
Lemma ValuesArray_eq a b :
  N a = N b →
  (∀ j, vec_to_list (values a) !! j = vec_to_list (values b) !! j) →
  a = b.
Proof.
  destruct a as [va na], b as [vb nb]; cbn. intros -> Hval.
  f_equal. apply vec_to_list_inj2. by apply list_eq.
Qed.

(** The guarded block is defined exactly within the capacity of [other]. *)
Lemma assign_body_defined_iff this other :
  is_Some (assign_body this other) ↔ within_capacity other.
Proof.
  split.
  - intros [a' Hrun]. unfold within_capacity.
    destruct (decide (count other <= 9)) as [|Hbig]; [done|].
    rewrite assign_body_beyond_capacity in Hrun by lia. discriminate.
  - intros Hcap.
    destruct (assign_body_spec this other Hcap) as (a' & Hrun & _). eauto.
Qed.

(** The result of the guarded block, in one piece. *)
Lemma assign_body_result this other this' :
  assign_body this other = Some this' →
  within_capacity other ∧ N this' = N other ∧
  ∀ j, vec_to_list (values this') !! j =
       if decide (j < count other) then vec_to_list (values other) !! j
       else vec_to_list (values this) !! j.
Proof.
  intros Hrun.
  assert (within_capacity other) as Hcap
    by (apply (assign_body_defined_iff this other); eauto).
  destruct (assign_body_spec this other Hcap)
    as (a' & Hrun' & HN & Hlow & Hhigh).
  assert (a' = this') as -> by congruence.
  split; [exact Hcap|]. split; [exact HN|].
  intros j. destruct (decide (j < count other)); [by apply Hlow|].
  apply Hhigh. lia.
Qed.

(** X1. [operator=] is defined exactly when the two references are the
    same, or both refer to live objects and the source's count is within
    the capacity: only then does the loop stay inside [values]. *)
Theorem operator_assign_defined_iff (h : gmap addr ValuesArray) this other :
  is_Some (operator_assign h this other) ↔
  this = other ∨
  (is_Some (h !! this) ∧ ∃ b, h !! other = Some b ∧ within_capacity b).
Proof.
  unfold operator_assign.
  destruct (decide (this ≠ other)) as [Hne|Heq].
  - split.
    + intros [res Hres]. right.
      destruct (h !! this) as [a|]; [|discriminate].
      destruct (h !! other) as [b|]; [|discriminate].
      cbn in Hres.
      destruct (assign_body a b) as [a'|] eqn:Hrun; [|discriminate].
      split; [eauto|]. exists b. split; [reflexivity|].
      apply (assign_body_defined_iff a b). eauto.
    + intros [Heq|([a Ha] & b & Hb & Hcap)]; [done|].
      rewrite Ha, Hb. cbn.
      apply (assign_body_defined_iff a b) in Hcap as [a' Hrun].
      rewrite Hrun. cbn. eauto.
  - split; [|eauto]. intros _. left.
    destruct (decide (this = other)); [done|contradiction].
Qed.

(** X2. With a callback that leaves the traversed array alone, [forEach]
    is defined exactly when the reference is to a live array whose count is
    within the capacity. *)
Theorem forEach_defined_iff
    {W : Type} (func : callback W) (this : addr)
    (h : gmap addr ValuesArray) (w : W) :
  (∀ a, h !! this = Some a → leaves_alone func this a) →
  (is_Some (forEach func this (h, w)) ↔
   ∃ a, h !! this = Some a ∧ within_capacity a).
Proof.
  intros Halone. split.
  - intros [res Hrun].
    destruct (h !! this) as [a|] eqn:Ha.
    + exists a. split; [reflexivity|]. unfold within_capacity.
      destruct (decide (count a <= 9)) as [|Hbig]; [done|].
      rewrite (forEach_beyond_capacity func this a) in Hrun;
        [discriminate|exact Ha|lia|by apply Halone].
    + unfold forEach in Hrun. cbn in Hrun.
      rewrite forEach_loop_dangling in Hrun by done. discriminate.
  - intros (a & Ha & Hcap).
    rewrite (forEach_spec func this a) by (done || by apply Halone). eauto.
Qed.

Lemma forEach_defined_iff_witness :
  (∀ a, two_objects !! 1%positive = Some a →
        leaves_alone (by_value (λ x calls, x :: calls)) 1%positive a) ∧
  (is_Some (forEach (by_value (λ x calls, x :: calls)) 1%positive
                    (two_objects, [])) ↔
   ∃ a, two_objects !! 1%positive = Some a ∧ within_capacity a).
Proof.
  assert (∀ a, two_objects !! 1%positive = Some a →
               leaves_alone (by_value (λ x calls, x :: calls)) 1%positive a)
    as Halone by (intros a _; apply by_value_leaves_alone).
  split; [exact Halone|].
  exact (forEach_defined_iff (by_value (λ x calls, x :: calls)) 1%positive
           two_objects [] Halone).
Defined.

(** X3. Assigning an array with [N = 0] changes the count of the target
    and nothing else: all nine slots keep their bytes, and [forEach] on the
    target then returns without calling the callback, whatever it is. *)
Theorem operator_assign_from_empty
    (h : gmap addr ValuesArray) this other a b :
  h !! this = Some a → h !! other = Some b → this ≠ other → count b = 0 →
  operator_assign h this other
  = Some (<[this := {| values := values a; N := N b |}]> h, this) ∧
  ∀ (W : Type) (func : callback W) (w : W),
    forEach func this (<[this := {| values := values a; N := N b |}]> h, w)
    = Some (<[this := {| values := values a; N := N b |}]> h, w).
Proof.
  intros Ha Hb Hne Hzero.
  assert (within_capacity b) as Hcap by (unfold within_capacity; lia).
  split.
  - rewrite (operator_assign_distinct h this other a b) by done.
    destruct (assign_body a b) as [a'|] eqn:Hrun.
    + apply assign_body_result in Hrun as (_ & HN & Hval).
      do 3 f_equal. apply ValuesArray_eq; [exact HN|].
      intros j. rewrite Hval.
      destruct (decide (j < count b)); [lia|reflexivity].
    + assert (is_Some (assign_body a b)) as [a' Hrun']
        by (by apply assign_body_defined_iff).
      congruence.
  - intros W func w. unfold forEach. cbn [fst snd].
    rewrite (forEach_loop_step func this 0 _ w
               {| values := values a; N := N b |})
      by (by rewrite lookup_insert_eq).
    change (count {| values := values a; N := N b |}) with (count b).
    destruct (decide (0 < count b)); [lia|reflexivity].
Qed.

Lemma operator_assign_from_empty_witness :
  four_objects !! 1%positive = Some full_array ∧
  four_objects !! 3%positive = Some empty_array ∧
  1%positive ≠ 3%positive ∧
  count empty_array = 0 ∧
  operator_assign four_objects 1 3
  = Some (<[1%positive := {| values := values full_array; N := N empty_array |}]>
            four_objects, 1%positive) ∧
  ∀ (W : Type) (func : callback W) (w : W),
    forEach func 1%positive
            (<[1%positive := {| values := values full_array;
                                N := N empty_array |}]> four_objects, w)
    = Some (<[1%positive := {| values := values full_array;
                               N := N empty_array |}]> four_objects, w).
Proof.
  assert (four_objects !! 1%positive = Some full_array) as H1
    by (vm_compute; reflexivity).
  assert (four_objects !! 3%positive = Some empty_array) as H3
    by (vm_compute; reflexivity).
  assert (1%positive ≠ 3%positive) as Hne by discriminate.
  assert (count empty_array = 0) as Hzero by reflexivity.
  split; [exact H1|]. split; [exact H3|]. split; [exact Hne|].
  split; [exact Hzero|].
  exact (operator_assign_from_empty
           four_objects 1%positive 3%positive full_array empty_array
           H1 H3 Hne Hzero).
Defined.

(** X4. Assigning an array with [N = 9] makes the target equal to the
    source in every slot and in the count. *)
Theorem operator_assign_from_full
    (h : gmap addr ValuesArray) this other a b :
  h !! this = Some a → h !! other = Some b → this ≠ other → count b = 9 →
  operator_assign h this other = Some (<[this := b]> h, this).
Proof.
  intros Ha Hb Hne Hfull.
  assert (within_capacity b) as Hcap by (unfold within_capacity; lia).
  rewrite (operator_assign_distinct h this other a b) by done.
  destruct (assign_body a b) as [a'|] eqn:Hrun.
  - apply assign_body_result in Hrun as (_ & HN & Hval).
    do 3 f_equal. apply ValuesArray_eq; [exact HN|].
    intros j. rewrite Hval.
    destruct (decide (j < count b)) as [|Hj]; [reflexivity|].
    rewrite !lookup_ge_None_2; [reflexivity|..];
      rewrite length_vec_to_list; lia.
  - assert (is_Some (assign_body a b)) as [a' Hrun']
      by (by apply assign_body_defined_iff).
    congruence.
Qed.

Lemma operator_assign_from_full_witness :
  four_objects !! 2%positive = Some short_array ∧
  four_objects !! 4%positive = Some nine_array ∧
  2%positive ≠ 4%positive ∧
  count nine_array = 9 ∧
  operator_assign four_objects 2 4
  = Some (<[2%positive := nine_array]> four_objects, 2%positive).
Proof.
  assert (four_objects !! 2%positive = Some short_array) as H2
    by (vm_compute; reflexivity).
  assert (four_objects !! 4%positive = Some nine_array) as H4
    by (vm_compute; reflexivity).
  assert (2%positive ≠ 4%positive) as Hne by discriminate.
  assert (count nine_array = 9) as Hfull by reflexivity.
  split; [exact H2|]. split; [exact H4|]. split; [exact Hne|].
  split; [exact Hfull|].
  exact (operator_assign_from_full
           four_objects 2%positive 4%positive short_array nine_array
           H2 H4 Hne Hfull).
Defined.

(** What a defined [operator=] leaves in the store, for any two references,
    aliased or not. *)
Lemma operator_assign_result (h h' : gmap addr ValuesArray) this other r :
  operator_assign h this other = Some (h', r) →
  r = this ∧
  (this = other ∧ h' = h ∨
   this ≠ other ∧
   ∃ a b a', h !! this = Some a ∧ h !! other = Some b ∧
             assign_body a b = Some a' ∧ h' = <[this := a']> h).
Proof.
  unfold operator_assign. intros Hres.
  destruct (decide (this ≠ other)) as [Hne|Heq].
  - destruct (h !! this) as [a|]; [|discriminate].
    destruct (h !! other) as [b|]; [|discriminate].
    cbn in Hres.
    destruct (assign_body a b) as [a'|] eqn:Hrun; [|discriminate].
    cbn in Hres. injection Hres as <- <-.
    split; [reflexivity|]. right. split; [exact Hne|].
    exists a, b, a'. done.
  - injection Hres as <- <-. split; [reflexivity|]. left.
    split; [|reflexivity].
    destruct (decide (this = other)); [done|contradiction].
Qed.

(** X5. Assignment is idempotent: repeating a defined assignment changes
    nothing more. *)
Theorem operator_assign_idempotent (h h' : gmap addr ValuesArray) this other r :
  operator_assign h this other = Some (h', r) →
  operator_assign h' this other = Some (h', r).
Proof.
  intros Hres.
  destruct (operator_assign_result h h' this other r Hres)
    as (-> & [[-> ->]|(Hne & a & b & a' & Ha & Hb & Hrun & ->)]).
  - exact Hres.
  - apply assign_body_result in Hrun as (Hcap & HN & Hval).
    rewrite (operator_assign_distinct _ this other a' b);
      [|by rewrite lookup_insert_eq|by rewrite lookup_insert_ne|done].
    destruct (assign_body a' b) as [a''|] eqn:Hrun2.
    + apply assign_body_result in Hrun2 as (_ & HN2 & Hval2).
      assert (a'' = a') as ->.
      { apply ValuesArray_eq; [congruence|].
        intros j. rewrite Hval2, Hval.
        destruct (decide (j < count b)); reflexivity. }
      by rewrite insert_insert_eq.
    + assert (is_Some (assign_body a' b)) as [a'' Hrun']
        by (by apply assign_body_defined_iff).
      congruence.
Qed.

Lemma operator_assign_idempotent_witness :
  operator_assign two_objects 1 2
  = Some (<[1%positive := full_array_assigned]> two_objects, 1%positive) ∧
  operator_assign (<[1%positive := full_array_assigned]> two_objects) 1 2
  = Some (<[1%positive := full_array_assigned]> two_objects, 1%positive).
Proof.
  assert (operator_assign two_objects 1 2
          = Some (<[1%positive := full_array_assigned]> two_objects, 1%positive))
    as Hfirst by (vm_compute; reflexivity).
  split; [exact Hfirst|].
  exact (operator_assign_idempotent two_objects _ 1%positive 2%positive
           1%positive Hfirst).
Defined.

(** X6. Assigning back is a no-op: after [a = b], the assignment [b = a]
    is defined and leaves the store as it is. *)
Theorem operator_assign_back (h h' : gmap addr ValuesArray) this other r :
  operator_assign h this other = Some (h', r) →
  operator_assign h' other this = Some (h', other).
Proof.
  intros Hres.
  destruct (operator_assign_result h h' this other r Hres)
    as (-> & [[-> ->]|(Hne & a & b & a' & Ha & Hb & Hrun & ->)]).
  - exact Hres.
  - apply assign_body_result in Hrun as (Hcap & HN & Hval).
    assert (within_capacity a') as Hcap'
      by (unfold within_capacity, count in *; by rewrite HN).
    rewrite (operator_assign_distinct _ other this b a');
      [|by rewrite lookup_insert_ne|by rewrite lookup_insert_eq|done].
    destruct (assign_body b a') as [b'|] eqn:Hrun2.
    + apply assign_body_result in Hrun2 as (_ & HN2 & Hval2).
      assert (b' = b) as ->.
      { apply ValuesArray_eq; [congruence|].
        intros j. rewrite Hval2, Hval.
        assert (count a' = count b) as -> by (unfold count; by rewrite HN).
        destruct (decide (j < count b)); reflexivity. }
      rewrite insert_id; [reflexivity|]. by rewrite lookup_insert_ne.
    + assert (is_Some (assign_body b a')) as [b' Hrun']
        by (by apply assign_body_defined_iff).
      congruence.
Qed.

Lemma operator_assign_back_witness :
  operator_assign two_objects 1 2
  = Some (<[1%positive := full_array_assigned]> two_objects, 1%positive) ∧
  operator_assign (<[1%positive := full_array_assigned]> two_objects) 2 1
  = Some (<[1%positive := full_array_assigned]> two_objects, 2%positive).
Proof.
  assert (operator_assign two_objects 1 2
          = Some (<[1%positive := full_array_assigned]> two_objects, 1%positive))
    as Hfirst by (vm_compute; reflexivity).
  split; [exact Hfirst|].
  exact (operator_assign_back two_objects _ 1%positive 2%positive
           1%positive Hfirst).
Defined.

(** After a defined assignment the target has the count and the contents
    of the source, for any two references, aliased or not. *)
Lemma operator_assign_contents (h : gmap addr ValuesArray) this other a b :
  h !! this = Some a → h !! other = Some b → within_capacity b →
  ∃ h' a',
    operator_assign h this other = Some (h', this) ∧
    h' !! this = Some a' ∧ N a' = N b ∧ contents a' = contents b ∧
    ∀ p, p ≠ this → h' !! p = h !! p.
Proof.
  intros Ha Hb Hcap.
  destruct (decide (this = other)) as [->|Hne].
  - assert (a = b) as -> by congruence.
    exists h, b. unfold operator_assign.
    destruct (decide (other ≠ other)); done.
  - destruct (assign_body_spec a b Hcap) as (a' & Hrun & HN & Hlow & _).
    exists (<[this := a']> h), a'.
    rewrite (operator_assign_distinct h this other a b) by done.
    rewrite Hrun. split; [reflexivity|].
    split; [by rewrite lookup_insert_eq|]. split; [exact HN|].
    split; [by apply contents_ext|].
    intros p Hp. by rewrite lookup_insert_ne.
Qed.

(** X7. Chained assignment [a = b = c] works through the reference that
    [operator=] returns: both steps are defined, and afterwards the objects
    at [a], [b] and [c] all have the count and the contents that [c] had,
    whichever of the three references coincide. *)
Theorem operator_assign_chain
    (h : gmap addr ValuesArray) pa pb pc a b c :
  h !! pa = Some a → h !! pb = Some b → h !! pc = Some c →
  within_capacity c →
  ∃ h1 r h2 a2 b2 c2,
    operator_assign h pb pc = Some (h1, r) ∧
    operator_assign h1 pa r = Some (h2, pa) ∧
    h2 !! pa = Some a2 ∧ h2 !! pb = Some b2 ∧ h2 !! pc = Some c2 ∧
    N a2 = N c ∧ N b2 = N c ∧ N c2 = N c ∧
    contents a2 = contents c ∧ contents b2 = contents c ∧
    contents c2 = contents c.
Proof.
  intros Ha Hb Hc Hcap.
  destruct (operator_assign_contents h pb pc b c Hb Hc Hcap)
    as (h1 & b1 & Hstep1 & Hb1 & HNb & Hcb & Hframe1).
  assert (within_capacity b1) as Hcap1
    by (unfold within_capacity, count in *; by rewrite HNb).
  assert (∃ a1, h1 !! pa = Some a1) as [a1 Ha1].
  { destruct (decide (pa = pb)) as [->|Hne]; [eauto|].
    rewrite Hframe1 by done. eauto. }
  assert (∃ c1, h1 !! pc = Some c1 ∧ N c1 = N c ∧ contents c1 = contents c)
    as (c1 & Hc1 & HNc1 & Hcc1).
  { destruct (decide (pc = pb)) as [->|Hne]; [eauto|].
    rewrite Hframe1 by done. eauto. }
  destruct (operator_assign_contents h1 pa pb a1 b1 Ha1 Hb1 Hcap1)
    as (h2 & a2 & Hstep2 & Ha2 & HNa & Hca & Hframe2).
  assert (∃ b2, h2 !! pb = Some b2 ∧ N b2 = N c ∧ contents b2 = contents c)
    as (b2 & Hb2 & HNb2 & Hcb2).
  { destruct (decide (pb = pa)) as [->|Hne].
    - exists a2. split; [exact Ha2|]. split; congruence.
    - rewrite Hframe2 by done. exists b1. done. }
  assert (∃ c2, h2 !! pc = Some c2 ∧ N c2 = N c ∧ contents c2 = contents c)
    as (c2 & Hc2 & HNc2 & Hcc2).
  { destruct (decide (pc = pa)) as [->|Hne].
    - exists a2. split; [exact Ha2|]. split; congruence.
    - rewrite Hframe2 by done. exists c1. done. }
  exists h1, pb, h2, a2, b2, c2.
  split; [exact Hstep1|]. split; [exact Hstep2|].
  split; [exact Ha2|]. split; [exact Hb2|]. split; [exact Hc2|].
  split; [congruence|]. split; [exact HNb2|]. split; [exact HNc2|].
  split; [congruence|]. split; [exact Hcb2|]. exact Hcc2.
Qed.

Lemma operator_assign_chain_witness :
  four_objects !! 1%positive = Some full_array ∧
  four_objects !! 3%positive = Some empty_array ∧
  four_objects !! 2%positive = Some short_array ∧
  within_capacity short_array ∧
  ∃ h1 r h2 a2 b2 c2,
    operator_assign four_objects 3 2 = Some (h1, r) ∧
    operator_assign h1 1 r = Some (h2, 1%positive) ∧
    h2 !! 1%positive = Some a2 ∧ h2 !! 3%positive = Some b2 ∧
    h2 !! 2%positive = Some c2 ∧
    N a2 = N short_array ∧ N b2 = N short_array ∧ N c2 = N short_array ∧
    contents a2 = contents short_array ∧ contents b2 = contents short_array ∧
    contents c2 = contents short_array.
Proof.
  assert (four_objects !! 1%positive = Some full_array) as H1
    by (vm_compute; reflexivity).
  assert (four_objects !! 3%positive = Some empty_array) as H3
    by (vm_compute; reflexivity).
  assert (four_objects !! 2%positive = Some short_array) as H2
    by (vm_compute; reflexivity).
  assert (within_capacity short_array) as Hcap
    by (unfold within_capacity; vm_compute; lia).
  split; [exact H1|]. split; [exact H3|]. split; [exact H2|].
  split; [exact Hcap|].
  exact (operator_assign_chain
           four_objects 1%positive 3%positive 2%positive
           full_array empty_array short_array H1 H3 H2 Hcap).
Defined.

(** X8. The assignment does not read the source beyond its count: two
    sources with the same count and the same first [N] slots give the same
    result, defined or not. *)
Theorem assign_body_ignores_unused_source this other other' :
  N other' = N other →
  (∀ j, j < count other →
        vec_to_list (values other') !! j = vec_to_list (values other) !! j) →
  assign_body this other' = assign_body this other.
Proof.
  intros HN Hval.
  assert (count other' = count other) as Hc by (unfold count; by rewrite HN).
  destruct (decide (count other <= 9)) as [Hcap|Hbig].
  - destruct (assign_body_spec this other Hcap)
      as (a1 & Hrun1 & HN1 & Hlow1 & Hhigh1).
    assert (within_capacity other') as Hcap'
      by (unfold within_capacity; lia).
    destruct (assign_body_spec this other' Hcap')
      as (a2 & Hrun2 & HN2 & Hlow2 & Hhigh2).
    rewrite Hrun1, Hrun2. f_equal.
    apply ValuesArray_eq; [congruence|].
    intros j. destruct (decide (j < count other)) as [Hj|Hj].
    + rewrite Hlow2 by lia. rewrite Hlow1 by done. by apply Hval.
    + rewrite Hhigh2 by lia. rewrite Hhigh1 by lia. reflexivity.
  - rewrite !assign_body_beyond_capacity by lia. reflexivity.
Qed.

Lemma assign_body_ignores_unused_source_witness :
  N short_array_variant = N short_array ∧
  (∀ j, j < count short_array →
        vec_to_list (values short_array_variant) !! j
        = vec_to_list (values short_array) !! j) ∧
  assign_body full_array short_array_variant
  = assign_body full_array short_array.
Proof.
  assert (N short_array_variant = N short_array) as HN by reflexivity.
  assert (∀ j, j < count short_array →
               vec_to_list (values short_array_variant) !! j
               = vec_to_list (values short_array) !! j) as Hval.
  { intros j Hj. change (count short_array) with 2 in Hj.
    destruct j as [|[|j]]; [reflexivity|reflexivity|lia]. }
  split; [exact HN|]. split; [exact Hval|].
  exact (assign_body_ignores_unused_source
           full_array short_array short_array_variant HN Hval).
Defined.

(** X9. The assignment makes the target equal to the source as a whole
    structure exactly when the two already agreed on every slot beyond the
    source's count. *)
Theorem assign_body_equal_iff this other this' :
  assign_body this other = Some this' →
  (this' = other ↔
   ∀ j, count other <= j →
        vec_to_list (values this) !! j = vec_to_list (values other) !! j).
Proof.
  intros Hrun. apply assign_body_result in Hrun as (Hcap & HN & Hval).
  split.
  - intros -> j Hj. specialize (Hval j).
    destruct (decide (j < count other)); [lia|]. by rewrite Hval.
  - intros Hagree. apply ValuesArray_eq; [exact HN|].
    intros j. rewrite Hval.
    destruct (decide (j < count other)); [reflexivity|].
    apply Hagree. lia.
Qed.

Lemma assign_body_equal_iff_witness :
  assign_body full_array short_array = Some full_array_assigned ∧
  (full_array_assigned = short_array ↔
   ∀ j, count short_array <= j →
        vec_to_list (values full_array) !! j
        = vec_to_list (values short_array) !! j).
Proof.
  assert (assign_body full_array short_array = Some full_array_assigned)
    as Hrun by (vm_compute; reflexivity).
  split; [exact Hrun|].
  exact (assign_body_equal_iff full_array short_array full_array_assigned Hrun).
Defined.

(** X10. [forEach] after [operator=]: once [b] has been assigned into [a],
    aliased or not, traversing [a] with a callback that only reads the
    element it is handed and leaves the arrays alone shows it exactly the
    first [b.N] bytes of [b], in order, the same run as traversing [b]. *)
Theorem forEach_after_operator_assign
    (h : gmap addr ValuesArray) this other a b :
  h !! this = Some a → h !! other = Some b → within_capacity b →
  ∃ h',
    operator_assign h this other = Some (h', this) ∧
    ∀ (W : Type) (g : byte → W → W) (w : W),
      forEach (by_value g) this (h', w)
      = Some (h', foldl (λ w' x, g x w') w (contents b)) ∧
      forEach (by_value g) this (h', w) = forEach (by_value g) other (h', w).
Proof.
  intros Ha Hb Hcap.
  destruct (operator_assign_contents h this other a b Ha Hb Hcap)
    as (h' & a' & Hstep & Ha' & HN & Hcont & Hframe).
  assert (within_capacity a') as Hcap'
    by (unfold within_capacity, count in *; by rewrite HN).
  exists h'. split; [exact Hstep|].
  intros W g w.
  assert (forEach (by_value g) this (h', w)
          = Some (h', foldl (λ w' x, g x w') w (contents b))) as Hthis
    by (rewrite (forEach_by_value g this a') by done; by rewrite Hcont).
  split; [exact Hthis|]. rewrite Hthis.
  destruct (decide (other = this)) as [->|Hne]; [by rewrite Hthis|].
  rewrite (forEach_by_value g other b); [reflexivity| |exact Hcap].
  by rewrite Hframe.
Qed.

Lemma forEach_after_operator_assign_witness :
  four_objects !! 3%positive = Some empty_array ∧
  four_objects !! 4%positive = Some nine_array ∧
  within_capacity nine_array ∧
  ∃ h',
    operator_assign four_objects 3 4 = Some (h', 3%positive) ∧
    ∀ (W : Type) (g : byte → W → W) (w : W),
      forEach (by_value g) 3%positive (h', w)
      = Some (h', foldl (λ w' x, g x w') w (contents nine_array)) ∧
      forEach (by_value g) 3%positive (h', w)
      = forEach (by_value g) 4%positive (h', w).
Proof.
  assert (four_objects !! 3%positive = Some empty_array) as H3
    by (vm_compute; reflexivity).
  assert (four_objects !! 4%positive = Some nine_array) as H4
    by (vm_compute; reflexivity).
  assert (within_capacity nine_array) as Hcap
    by (unfold within_capacity; vm_compute; lia).
  split; [exact H3|]. split; [exact H4|]. split; [exact Hcap|].
  exact (forEach_after_operator_assign
           four_objects 3%positive 4%positive empty_array nine_array
           H3 H4 Hcap).
Defined.

(** X11. Two assignments in a row into the same target: the last source
    decides the count and the first [c.N] slots, but the slots from [c.N]
    up to [b.N] still hold what the earlier source [b] put there, and the
    rest what the target held at the start. *)
Theorem operator_assign_twice
    (h : gmap addr ValuesArray) this pb pc a b c :
  h !! this = Some a → h !! pb = Some b → h !! pc = Some c →
  this ≠ pb → this ≠ pc → within_capacity b → within_capacity c →
  ∃ h1 h2 a2,
    operator_assign h this pb = Some (h1, this) ∧
    operator_assign h1 this pc = Some (h2, this) ∧
    h2 !! this = Some a2 ∧ N a2 = N c ∧
    ∀ j, vec_to_list (values a2) !! j =
         if decide (j < count c) then vec_to_list (values c) !! j
         else if decide (j < count b) then vec_to_list (values b) !! j
         else vec_to_list (values a) !! j.
Proof.
  intros Ha Hb Hc Hnb Hnc Hcapb Hcapc.
  destruct (assign_body a b) as [a1|] eqn:Hrun1; cycle 1.
  { assert (is_Some (assign_body a b)) as [a1 Hrun1']
      by (by apply assign_body_defined_iff).
    congruence. }
  destruct (assign_body a1 c) as [a2|] eqn:Hrun2; cycle 1.
  { assert (is_Some (assign_body a1 c)) as [a2 Hrun2']
      by (by apply assign_body_defined_iff).
    congruence. }
  exists (<[this := a1]> h), (<[this := a2]> (<[this := a1]> h)), a2.
  split.
  { rewrite (operator_assign_distinct h this pb a b) by done.
    by rewrite Hrun1. }
  split.
  { rewrite (operator_assign_distinct _ this pc a1 c);
      [|by rewrite lookup_insert_eq|by rewrite lookup_insert_ne|done].
    by rewrite Hrun2. }
  split; [by rewrite lookup_insert_eq|].
  apply assign_body_result in Hrun1 as (_ & HN1 & Hval1).
  apply assign_body_result in Hrun2 as (_ & HN2 & Hval2).
  split; [exact HN2|].
  intros j. rewrite Hval2.
  destruct (decide (j < count c)); [reflexivity|]. by rewrite Hval1.
Qed.

Lemma operator_assign_twice_witness :
  four_objects !! 1%positive = Some full_array ∧
  four_objects !! 4%positive = Some nine_array ∧
  four_objects !! 2%positive = Some short_array ∧
  1%positive ≠ 4%positive ∧ 1%positive ≠ 2%positive ∧
  within_capacity nine_array ∧ within_capacity short_array ∧
  ∃ h1 h2 a2,
    operator_assign four_objects 1 4 = Some (h1, 1%positive) ∧
    operator_assign h1 1 2 = Some (h2, 1%positive) ∧
    h2 !! 1%positive = Some a2 ∧ N a2 = N short_array ∧
    ∀ j, vec_to_list (values a2) !! j =
         if decide (j < count short_array)
         then vec_to_list (values short_array) !! j
         else if decide (j < count nine_array)
              then vec_to_list (values nine_array) !! j
              else vec_to_list (values full_array) !! j.
Proof.
  assert (four_objects !! 1%positive = Some full_array) as H1
    by (vm_compute; reflexivity).
  assert (four_objects !! 4%positive = Some nine_array) as H4
    by (vm_compute; reflexivity).
  assert (four_objects !! 2%positive = Some short_array) as H2
    by (vm_compute; reflexivity).
  assert (1%positive ≠ 4%positive) as Hn4 by discriminate.
  assert (1%positive ≠ 2%positive) as Hn2 by discriminate.
  assert (within_capacity nine_array) as Hcap4
    by (unfold within_capacity; vm_compute; lia).
  assert (within_capacity short_array) as Hcap2
    by (unfold within_capacity; vm_compute; lia).
  split; [exact H1|]. split; [exact H4|]. split; [exact H2|].
  split; [exact Hn4|]. split; [exact Hn2|].
  split; [exact Hcap4|]. split; [exact Hcap2|].
  exact (operator_assign_twice
           four_objects 1%positive 4%positive 2%positive
           full_array nine_array short_array
           H1 H4 H2 Hn4 Hn2 Hcap4 Hcap2).
Defined.

(** X12. Exchanging two arrays through a third one, [t = a; a = b; b = t],
    exchanges their counts and their contents. *)
Theorem operator_assign_swap
    (h : gmap addr ValuesArray) pt pa pb t a b :
  h !! pt = Some t → h !! pa = Some a → h !! pb = Some b →
  pt ≠ pa → pt ≠ pb → pa ≠ pb →
  within_capacity a → within_capacity b →
  ∃ h1 h2 h3 a3 b3,
    operator_assign h pt pa = Some (h1, pt) ∧
    operator_assign h1 pa pb = Some (h2, pa) ∧
    operator_assign h2 pb pt = Some (h3, pb) ∧
    h3 !! pa = Some a3 ∧ h3 !! pb = Some b3 ∧
    N a3 = N b ∧ contents a3 = contents b ∧
    N b3 = N a ∧ contents b3 = contents a.
Proof.
  intros Ht Ha Hb Hta Htb Hab Hcapa Hcapb.
  destruct (operator_assign_contents h pt pa t a Ht Ha Hcapa)
    as (h1 & t1 & Hstep1 & Ht1 & HNt & Hct & Hframe1).
  assert (within_capacity t1) as Hcapt
    by (unfold within_capacity, count in *; by rewrite HNt).
  assert (h1 !! pa = Some a) as Ha1 by (by rewrite Hframe1).
  assert (h1 !! pb = Some b) as Hb1 by (by rewrite Hframe1).
  destruct (operator_assign_contents h1 pa pb a b Ha1 Hb1 Hcapb)
    as (h2 & a2 & Hstep2 & Ha2 & HNa & Hca & Hframe2).
  assert (h2 !! pb = Some b) as Hb2 by (by rewrite Hframe2).
  assert (h2 !! pt = Some t1) as Ht2 by (by rewrite Hframe2).
  destruct (operator_assign_contents h2 pb pt b t1 Hb2 Ht2 Hcapt)
    as (h3 & b3 & Hstep3 & Hb3 & HNb & Hcb & Hframe3).
  assert (h3 !! pa = Some a2) as Ha3 by (by rewrite Hframe3).
  exists h1, h2, h3, a2, b3.
  split; [exact Hstep1|]. split; [exact Hstep2|]. split; [exact Hstep3|].
  split; [exact Ha3|]. split; [exact Hb3|].
  split; [exact HNa|]. split; [exact Hca|].
  split; congruence.
Qed.

Lemma operator_assign_swap_witness :
  four_objects !! 3%positive = Some empty_array ∧
  four_objects !! 1%positive = Some full_array ∧
  four_objects !! 2%positive = Some short_array ∧
  3%positive ≠ 1%positive ∧ 3%positive ≠ 2%positive ∧
  1%positive ≠ 2%positive ∧
  within_capacity full_array ∧ within_capacity short_array ∧
  ∃ h1 h2 h3 a3 b3,
    operator_assign four_objects 3 1 = Some (h1, 3%positive) ∧
    operator_assign h1 1 2 = Some (h2, 1%positive) ∧
    operator_assign h2 2 3 = Some (h3, 2%positive) ∧
    h3 !! 1%positive = Some a3 ∧ h3 !! 2%positive = Some b3 ∧
    N a3 = N short_array ∧ contents a3 = contents short_array ∧
    N b3 = N full_array ∧ contents b3 = contents full_array.
Proof.
  assert (four_objects !! 3%positive = Some empty_array) as H3
    by (vm_compute; reflexivity).
  assert (four_objects !! 1%positive = Some full_array) as H1
    by (vm_compute; reflexivity).
  assert (four_objects !! 2%positive = Some short_array) as H2
    by (vm_compute; reflexivity).
  assert (3%positive ≠ 1%positive) as Hn31 by discriminate.
  assert (3%positive ≠ 2%positive) as Hn32 by discriminate.
  assert (1%positive ≠ 2%positive) as Hn12 by discriminate.
  assert (within_capacity full_array) as Hcap1
    by (unfold within_capacity; vm_compute; lia).
  assert (within_capacity short_array) as Hcap2
    by (unfold within_capacity; vm_compute; lia).
  split; [exact H3|]. split; [exact H1|]. split; [exact H2|].
  split; [exact Hn31|]. split; [exact Hn32|]. split; [exact Hn12|].
  split; [exact Hcap1|]. split; [exact Hcap2|].
  exact (operator_assign_swap
           four_objects 3%positive 1%positive 2%positive
           empty_array full_array short_array
           H3 H1 H2 Hn31 Hn32 Hn12 Hcap1 Hcap2).
Defined.

(** X13. With a callback that only reads the element it is handed and
    leaves the arrays alone, the count decides how far [forEach] goes: on
    the same nine slots, a traversal with a larger count is the traversal
    with the smaller count, continued over the slots in between. *)
Theorem forEach_longer_count
    {W : Type} (g : byte → W → W) (h : gmap addr ValuesArray)
    (p : addr) (a : ValuesArray) (n : byte) (w : W) :
  h !! p = Some a → count a <= Byte.to_nat n → Byte.to_nat n <= 9 →
  ∃ w1,
    forEach (by_value g) p (h, w) = Some (h, w1) ∧
    forEach (by_value g) p (<[p := {| values := values a; N := n |}]> h, w)
    = Some (<[p := {| values := values a; N := n |}]> h,
            foldl (λ w' x, g x w') w1
              (take (Byte.to_nat n - count a)
                    (drop (count a) (vec_to_list (values a))))).
Proof.
  intros Ha Hle Hcap'.
  assert (within_capacity a) as Hcap by (unfold within_capacity; lia).
  exists (foldl (λ w' x, g x w') w (contents a)).
  split; [by apply forEach_by_value|].
  rewrite (forEach_by_value g p {| values := values a; N := n |});
    [|by rewrite lookup_insert_eq|exact Hcap'].
  do 2 f_equal. rewrite <- foldl_app. f_equal.
  unfold contents. cbn [values].
  change (count {| values := values a; N := n |}) with (Byte.to_nat n).
  rewrite take_take_drop. f_equal. lia.
Qed.

Lemma forEach_longer_count_witness :
  two_objects !! 2%positive = Some short_array ∧
  count short_array <= Byte.to_nat x05 ∧
  Byte.to_nat x05 <= 9 ∧
  ∃ calls,
    forEach (by_value (λ x l, l ++ [x])) 2%positive (two_objects, [])
    = Some (two_objects, calls) ∧
    forEach (by_value (λ x l, l ++ [x])) 2%positive
            (<[2%positive := {| values := values short_array; N := x05 |}]>
               two_objects, [])
    = Some (<[2%positive := {| values := values short_array; N := x05 |}]>
              two_objects,
            foldl (λ l x, l ++ [x]) calls [x23; x24; x25]).
Proof.
  assert (two_objects !! 2%positive = Some short_array) as H2
    by (vm_compute; reflexivity).
  assert (count short_array <= Byte.to_nat x05) as Hle by (vm_compute; lia).
  assert (Byte.to_nat x05 <= 9) as Hcap by (vm_compute; lia).
  split; [exact H2|]. split; [exact Hle|]. split; [exact Hcap|].
  exact (forEach_longer_count (λ x l, l ++ [x]) two_objects 2%positive
           short_array x05 [] H2 Hle Hcap).
Defined.

(** Calls of [set_count n] on an array that already has the count [n] leave
    the heap as it is and count themselves. *)
Lemma foldl_set_count (n : byte) this a h (l : list nat) :
  h !! this = Some {| values := values a; N := n |} →
  ∀ c, foldl (λ s j, set_count n this j s) (h, c) l = (h, c + length l).
Proof.
  intros Ha. induction l as [|j l IH]; intros c; cbn [foldl length].
  - f_equal. lia.
  - assert (set_count n this j (h, c) = (h, S c)) as ->.
    { unfold set_count. cbn. rewrite Ha. cbn [values].
      by rewrite insert_id. }
    rewrite IH. f_equal. lia.
Qed.

(** X14. The loop bound of [forEach] is the count as it is on each turn, not
    the count at entry: with a callback that sets the count of the traversed
    array to [n], a live array entered with [1 <= N <= 9] gets [max 1 n]
    calls when [n <= 9], and the traversal leaves [values] when [n > 9]. *)
Theorem forEach_follows_count
    (n : byte) (this : addr) (a : ValuesArray)
    (h : gmap addr ValuesArray) (c : nat) :
  h !! this = Some a → 1 <= count a → count a <= 9 →
  forEach (set_count n) this (h, c) =
  if decide (Byte.to_nat n <= 9)
  then Some (<[this := {| values := values a; N := n |}]> h,
             c + max 1 (Byte.to_nat n))
  else None.
Proof.
  intros Ha Hone Hcap. unfold forEach. cbn [fst snd].
  rewrite (forEach_loop_step (set_count n) this 0 h c a Ha).
  destruct (decide (0 < count a)); [|lia].
  destruct (decide (0 < 9)); [|lia].
  assert (set_count n this 0 (h, c)
          = (<[this := {| values := values a; N := n |}]> h, S c)) as ->
    by (unfold set_count; cbn; by rewrite Ha).
  cbn [fst snd].
  set (a' := {| values := values a; N := n |}).
  set (h' := <[this := a']> h).
  assert (h' !! this = Some a') as Ha' by apply lookup_insert_eq.
  assert (leaves_alone (set_count n) this a') as Halone.
  { intros i h0 w0 H0. unfold set_count. cbn. rewrite H0. cbn [values].
    apply lookup_insert_eq. }
  change (Byte.to_nat n) with (count a').
  destruct (decide (count a' <= 9)) as [Hn|Hn].
  - rewrite (forEach_loop_spec (set_count n) this a' (count a' - 1));
      [|exact Hn|exact Halone|exact Ha'|reflexivity].
    rewrite (foldl_set_count n this a h' _ Ha').
    rewrite length_seq. do 2 f_equal. lia.
  - apply (forEach_loop_beyond_capacity (set_count n) this a'
             ltac:(lia) Halone 8); [exact Ha'|lia|lia].
Qed.

Lemma forEach_follows_count_witness :
  two_objects !! 2%positive = Some short_array ∧
  1 <= count short_array ∧ count short_array <= 9 ∧
  forEach (set_count x04) 2%positive (two_objects, 0)
  = Some (<[2%positive := {| values := values short_array; N := x04 |}]>
            two_objects, 4) ∧
  forEach (set_count x00) 2%positive (two_objects, 0)
  = Some (<[2%positive := {| values := values short_array; N := x00 |}]>
            two_objects, 1) ∧
  forEach (set_count x0a) 2%positive (two_objects, 0) = None.
Proof.
  assert (two_objects !! 2%positive = Some short_array) as H2
    by (vm_compute; reflexivity).
  assert (1 <= count short_array) as Hone by (vm_compute; lia).
  assert (count short_array <= 9) as Hcap by (vm_compute; lia).
  split; [exact H2|]. split; [exact Hone|]. split; [exact Hcap|].
  split; [|split].
  - exact (forEach_follows_count x04 2%positive short_array two_objects 0
             H2 Hone Hcap).
  - exact (forEach_follows_count x00 2%positive short_array two_objects 0
             H2 Hone Hcap).
  - exact (forEach_follows_count x0a 2%positive short_array two_objects 0
             H2 Hone Hcap).
Defined.
